(** * Grbl homing cycle (limits.c): a shallow embedding and its properties

    The development follows [limits.c]: the pulse loop of [homing_cycle]
    with its four per-axis debounce counters, the two wrappers
    [approach_limit_switch] and [leave_limit_switch], and the sequencer
    [limits_go_home].

    - 8-bit and 32-bit unsigned C integers are [Z] with the wrap-around
      written out ([u8], [u32]).
    - The memory-mapped registers are fields of an explicit [world]; every
      output access is also appended to a chronological [log].
    - [LIMIT_PIN] is an input register: its successive readings are given
      by a function [pin : nat -> Z], indexed by the number of reads so far.
    - The [for(;;)] loop is a fuel-indexed iteration; running out of fuel
      is distinguished from returning.
    - The C [double] arithmetic of [FEEDRATE_TO_PERIOD_US] is IEEE-754
      arithmetic of the Standard Library's [SpecFloat], in a format
      [(prec, emax)] that is a parameter of the build. *)

From Stdlib Require Import ZArith List Bool Lia QArith.
From Stdlib Require Import Floats.SpecFloat.
Import ListNotations.

Local Open Scope Z_scope.

(** ** Machine integers *)

(** Conversion to [uint8_t]. *)
Definition u8 (x : Z) : Z := Z.land x 255.

(** Conversion to [uint32_t]. *)
Definition u32 (x : Z) : Z := x mod 2 ^ 32.

(** ** Configuration

    [config.h], [settings.h] and [nuts_bolts.h] are not part of the
    translated file: the constants they define are taken as parameters. *)

Inductive axis : Set := X_AXIS | Y_AXIS | Z_AXIS | C_AXIS.

Definition axis_eqb (a b : axis) : bool :=
  match a, b with
  | X_AXIS, X_AXIS | Y_AXIS, Y_AXIS | Z_AXIS, Z_AXIS | C_AXIS, C_AXIS => true
  | _, _ => false
  end.

(** The pin assignment and the build-time switches of [config.h]. *)
Record config_t : Set := {
  STEP_MASK : Z;
  DIRECTION_MASK : Z;
  LIMIT_MASK : Z;
  X_STEP_BIT : Z;
  Y_STEP_BIT : Z;
  Z_STEP_BIT : Z;
  C_STEP_BIT : Z;
  X_LIMIT_BIT : Z;
  Y_LIMIT_BIT : Z;
  Z_LIMIT_BIT : Z;
  C_LIMIT_BIT : Z;
  (* #ifdef HOME_X ... HOME_C *)
  HOME_X : bool;
  HOME_Y : bool;
  HOME_Z : bool;
  HOME_C : bool;
  (* precision and exponent bound of the C type double on the target *)
  double_prec : Z;
  double_emax : Z
}.

(** The fields of the global [settings] that [limits.c] reads. *)
Record settings_t : Set := {
  steps_per_mm : axis -> spec_float;
  pulse_microseconds : Z;
  default_feed_rate : spec_float;
  default_seek_rate : spec_float;
  invert_mask_stepdir : Z;
  invert_mask_limit : Z
}.

(** ** Hardware and global state *)

Inductive event : Set :=
| EvPlanSynchronize                 (* plan_synchronize() *)
| EvStEnable                        (* st_enable() *)
| EvPortWrite (v : Z)               (* STEPPING_PORT = v *)
| EvPinWrite (v : Z)                (* STEPPING_PIN = v *)
| EvDelay (us : Z).                 (* delay_us(us) *)

Record world : Type := {
  STEPPING_PORT : Z;                (* output latch of the stepping port *)
  sys_position : axis -> Z;         (* sys.position[] *)
  reads : nat;                      (* number of LIMIT_PIN reads so far *)
  log : list event                  (* output accesses, oldest first *)
}.

Definition emit (e : event) (w : world) : world :=
  {| STEPPING_PORT := STEPPING_PORT w;
     sys_position := sys_position w;
     reads := reads w;
     log := log w ++ [e] |}.

(** [STEPPING_PORT = v]. *)
Definition write_STEPPING_PORT (v : Z) (w : world) : world :=
  emit (EvPortWrite (u8 v))
    {| STEPPING_PORT := u8 v;
       sys_position := sys_position w;
       reads := reads w;
       log := log w |}.

(** [STEPPING_PIN = v]: on the AVR a one written to a PIN register toggles
    the corresponding bit of the PORT latch ("End pulse via toggle"). *)
Definition write_STEPPING_PIN (v : Z) (w : world) : world :=
  emit (EvPinWrite (u8 v))
    {| STEPPING_PORT := Z.lxor (STEPPING_PORT w) (u8 v);
       sys_position := sys_position w;
       reads := reads w;
       log := log w |}.

(** Modelled from the spec: [delay_us] is defined outside [limits.c]; it
    holds for the given number of microseconds. The call is recorded with
    its argument. *)
Definition delay_us (us : Z) (w : world) : world := emit (EvDelay us) w.

(** [limit_bits = LIMIT_PIN]. *)
Definition read_LIMIT_PIN (pin : nat -> Z) (w : world) : Z * world :=
  (u8 (pin (reads w)),
   {| STEPPING_PORT := STEPPING_PORT w;
      sys_position := sys_position w;
      reads := S (reads w);
      log := log w |}).

(** Modelled from the spec: [plan_synchronize] belongs to the planner and
    is not in [limits.c]; it blocks until the queued motion has drained.
    The call is recorded; it leaves the stepping port and the position as
    they are. *)
Definition plan_synchronize (w : world) : world := emit EvPlanSynchronize w.

(** Modelled from the spec: [st_enable] belongs to the stepper driver and
    is not in [limits.c]; it enables the stepper drive outputs. The call
    is recorded; it leaves the stepping port and the position as they
    are. *)
Definition st_enable (w : world) : world := emit EvStEnable w.

(** ** Local variables of [homing_cycle] *)

Record locals : Set := {
  x_axis : bool;
  y_axis : bool;
  z_axis : bool;
  c_axis : bool;
  out_bits : Z;
  x_limit_count : Z;
  y_limit_count : Z;
  z_limit_count : Z;
  c_limit_count : Z
}.

Definition axis_flag (a : axis) (ls : locals) : bool :=
  match a with
  | X_AXIS => x_axis ls
  | Y_AXIS => y_axis ls
  | Z_AXIS => z_axis ls
  | C_AXIS => c_axis ls
  end.

Definition limit_count (a : axis) (ls : locals) : Z :=
  match a with
  | X_AXIS => x_limit_count ls
  | Y_AXIS => y_limit_count ls
  | Z_AXIS => z_limit_count ls
  | C_AXIS => c_limit_count ls
  end.

Definition set_limit_count (a : axis) (n : Z) (ls : locals) : locals :=
  {| x_axis := x_axis ls; y_axis := y_axis ls;
     z_axis := z_axis ls; c_axis := c_axis ls;
     out_bits := out_bits ls;
     x_limit_count := if axis_eqb a X_AXIS then n else x_limit_count ls;
     y_limit_count := if axis_eqb a Y_AXIS then n else y_limit_count ls;
     z_limit_count := if axis_eqb a Z_AXIS then n else z_limit_count ls;
     c_limit_count := if axis_eqb a C_AXIS then n else c_limit_count ls |}.

(** [a_axis = false; out_bits = v;] *)
Definition stop_axis (a : axis) (v : Z) (ls : locals) : locals :=
  {| x_axis := if axis_eqb a X_AXIS then false else x_axis ls;
     y_axis := if axis_eqb a Y_AXIS then false else y_axis ls;
     z_axis := if axis_eqb a Z_AXIS then false else z_axis ls;
     c_axis := if axis_eqb a C_AXIS then false else c_axis ls;
     out_bits := v;
     x_limit_count := x_limit_count ls;
     y_limit_count := y_limit_count ls;
     z_limit_count := z_limit_count ls;
     c_limit_count := c_limit_count ls |}.

(** The two registers of the limit port that [limits_init] writes. *)
Record limit_port : Set := {
  LIMIT_DDR : Z;                    (* data direction: 1 = output *)
  LIMIT_PORT : Z                    (* output latch / pull-up enable *)
}.

(** State of the [for(;;)] loop: still iterating, or left by [return]. *)
Inductive loop_state : Type :=
| Running (ls : locals) (w : world)
| Returned (w : world).

(** ** A concrete machine

    Step lines on bits 0-3 and direction lines on bits 4-7 of the stepping
    port, limit inputs on bits 0-3; X, Y and Z are homed, C is not. *)

Definition binary32 (n : Z) : spec_float := binary_normalize 24 128 n 0 false.
Definition binary64 (n : Z) : spec_float := binary_normalize 53 1024 n 0 false.

(** [double] is IEEE binary32, as avr-gcc has it. *)
Definition demo_cfg : config_t :=
  {| STEP_MASK := 15; DIRECTION_MASK := 240; LIMIT_MASK := 15;
     X_STEP_BIT := 0; Y_STEP_BIT := 1; Z_STEP_BIT := 2; C_STEP_BIT := 3;
     X_LIMIT_BIT := 0; Y_LIMIT_BIT := 1; Z_LIMIT_BIT := 2; C_LIMIT_BIT := 3;
     HOME_X := true; HOME_Y := true; HOME_Z := true; HOME_C := false;
     double_prec := 24; double_emax := 128 |}.

(** The same machine with an IEEE binary64 [double]. *)
Definition demo_cfg64 : config_t :=
  {| STEP_MASK := 15; DIRECTION_MASK := 240; LIMIT_MASK := 15;
     X_STEP_BIT := 0; Y_STEP_BIT := 1; Z_STEP_BIT := 2; C_STEP_BIT := 3;
     X_LIMIT_BIT := 0; Y_LIMIT_BIT := 1; Z_LIMIT_BIT := 2; C_LIMIT_BIT := 3;
     HOME_X := true; HOME_Y := true; HOME_Z := true; HOME_C := false;
     double_prec := 53; double_emax := 1024 |}.

(** 80 steps/mm, 10 us pulses, seek rate 100, feed rate 50, no inversion. *)
Definition demo_settings : settings_t :=
  {| steps_per_mm := fun _ => binary32 80;
     pulse_microseconds := 10;
     default_feed_rate := binary32 50;
     default_seek_rate := binary32 100;
     invert_mask_stepdir := 0;
     invert_mask_limit := 0 |}.

Definition demo_settings64 : settings_t :=
  {| steps_per_mm := fun _ => binary64 80;
     pulse_microseconds := 10;
     default_feed_rate := binary64 50;
     default_seek_rate := binary64 100;
     invert_mask_stepdir := 0;
     invert_mask_limit := 0 |}.

(** As [demo_settings], with seek rate 7. *)
Definition slow_settings : settings_t :=
  {| steps_per_mm := fun _ => binary32 80;
     pulse_microseconds := 10;
     default_feed_rate := binary32 50;
     default_seek_rate := binary32 7;
     invert_mask_stepdir := 0;
     invert_mask_limit := 0 |}.

(** As [demo_settings], with seek rate 0. *)
Definition zero_seek_settings : settings_t :=
  {| steps_per_mm := fun _ => binary32 80;
     pulse_microseconds := 10;
     default_feed_rate := binary32 50;
     default_seek_rate := S754_zero false;
     invert_mask_stepdir := 0;
     invert_mask_limit := 0 |}.

(** Limit port registers: every pin an output, no pull-up. *)
Definition demo_limit_port : limit_port :=
  {| LIMIT_DDR := 255; LIMIT_PORT := 0 |}.

(** As [demo_settings], with the X step line inverted. *)
Definition inverted_x_settings : settings_t :=
  {| steps_per_mm := fun _ => binary32 80;
     pulse_microseconds := 10;
     default_feed_rate := binary32 50;
     default_seek_rate := binary32 100;
     invert_mask_stepdir := 1;
     invert_mask_limit := 0 |}.

Definition demo_position (a : axis) : Z :=
  match a with
  | X_AXIS => 11
  | Y_AXIS => 22
  | Z_AXIS => 33
  | C_AXIS => 44
  end.

Definition demo_world : world :=
  {| STEPPING_PORT := 0; sys_position := demo_position;
     reads := 0; log := [] |}.

(** The X step line rests high, as an inverted line does. *)
Definition x_high_world : world :=
  {| STEPPING_PORT := 1; sys_position := demo_position;
     reads := 0; log := [] |}.

(** Readings of [LIMIT_PIN]. *)
Definition all_clear : nat -> Z := fun _ => 0.
Definition x_stuck : nat -> Z := fun _ => 1.
Definition x_set_at_tenth : nat -> Z :=
  fun n => if (n =? 9)%nat then 1 else 0.
Definition y_set_at_first : nat -> Z :=
  fun n => if (n =? 0)%nat then 2 else 0.
Definition y_set_five_times : nat -> Z :=
  fun n => if (n <? 5)%nat then 2 else 0.
(** Clear during the two approach passes, set during the retreat. *)
Definition home_run_pins : nat -> Z :=
  fun n => if (n <? 20)%nat then 0 else 15.

Section Limits.

Variable cfg : config_t.
Variable settings : settings_t.

Definition STEP_BIT (a : axis) : Z :=
  match a with
  | X_AXIS => X_STEP_BIT cfg
  | Y_AXIS => Y_STEP_BIT cfg
  | Z_AXIS => Z_STEP_BIT cfg
  | C_AXIS => C_STEP_BIT cfg
  end.

Definition LIMIT_BIT (a : axis) : Z :=
  match a with
  | X_AXIS => X_LIMIT_BIT cfg
  | Y_AXIS => Y_LIMIT_BIT cfg
  | Z_AXIS => Z_LIMIT_BIT cfg
  | C_AXIS => C_LIMIT_BIT cfg
  end.

(** *** [homing_cycle], lines 40-54: the output word *)

Definition initial_out_bits (x y z c reverse_direction : bool) : Z :=
  let out_bits := u8 (DIRECTION_MASK cfg) in
  let out_bits :=
    if x then u8 (Z.lor out_bits (Z.shiftl 1 (X_STEP_BIT cfg))) else out_bits in
  let out_bits :=
    if y then u8 (Z.lor out_bits (Z.shiftl 1 (Y_STEP_BIT cfg))) else out_bits in
  let out_bits :=
    if z then u8 (Z.lor out_bits (Z.shiftl 1 (Z_STEP_BIT cfg))) else out_bits in
  let out_bits :=
    if c then u8 (Z.lor out_bits (Z.shiftl 1 (C_STEP_BIT cfg))) else out_bits in
  let out_bits :=
    if reverse_direction
    then u8 (Z.lxor out_bits (DIRECTION_MASK cfg)) else out_bits in
  u8 (Z.lxor out_bits (invert_mask_stepdir settings)).

(** Line 58: the masked write of the direction pins. *)
Definition set_direction_pins (out : Z) (w : world) : world :=
  write_STEPPING_PORT
    (Z.lor (Z.land (STEPPING_PORT w) (Z.lnot (DIRECTION_MASK cfg)))
           (Z.land out (DIRECTION_MASK cfg))) w.

Definition initial_locals (x y z c reverse_direction : bool) : locals :=
  {| x_axis := x; y_axis := y; z_axis := z; c_axis := c;
     out_bits := initial_out_bits x y z c reverse_direction;
     x_limit_count := 0; y_limit_count := 0;
     z_limit_count := 0; c_limit_count := 0 |}.

(** *** Lines 63-71: the processed limit byte *)

Definition process_limit_bits (reverse_direction : bool) (raw : Z) : Z :=
  let limit_bits := raw in
  let limit_bits :=
    if reverse_direction
    then u8 (Z.lxor limit_bits (LIMIT_MASK cfg)) else limit_bits in
  u8 (Z.lxor limit_bits (invert_mask_limit settings)).

(** The test [limit_bits & (1<<A_LIMIT_BIT)] of the four blocks. *)
Definition limit_bit_set (a : axis) (limit_bits : Z) : bool :=
  negb (Z.land limit_bits (Z.shiftl 1 (LIMIT_BIT a)) =? 0).

(** *** Lines 73-120: one per-axis block *)

Definition debounce_axis (a : axis) (limit_bits : Z) (ls : locals) : locals :=
  if axis_flag a ls then
    let ls :=
      if negb (limit_bit_set a limit_bits)
      then set_limit_count a (u8 (limit_count a ls + 1)) ls
      else set_limit_count a 0 ls in
    if 10 <=? limit_count a ls
    then stop_axis a (u8 (Z.lxor (out_bits ls) (Z.shiftl 1 (STEP_BIT a)))) ls
    else ls
  else ls.

(** The four blocks in source order: X, Y, Z, C. *)
Definition debounce_all (limit_bits : Z) (ls : locals) : locals :=
  debounce_axis C_AXIS limit_bits
    (debounce_axis Z_AXIS limit_bits
       (debounce_axis Y_AXIS limit_bits
          (debounce_axis X_AXIS limit_bits ls))).

Definition any_axis (ls : locals) : bool :=
  x_axis ls || y_axis ls || z_axis ls || c_axis ls.

(** *** Lines 126-129: one step pulse *)

Definition send_pulse (step_delay : Z) (out : Z) (w : world) : world :=
  let w :=
    write_STEPPING_PORT
      (Z.lor (Z.land (STEPPING_PORT w) (Z.lnot (STEP_MASK cfg)))
             (Z.land out (STEP_MASK cfg))) w in
  let w := delay_us (pulse_microseconds settings) w in
  let w := write_STEPPING_PIN (Z.land out (STEP_MASK cfg)) w in
  delay_us step_delay w.

(** *** Lines 62-130: the loop *)

Definition loop_iteration (reverse_direction : bool) (step_delay : Z)
    (pin : nat -> Z) (ls : locals) (w : world) : loop_state :=
  let '(raw, w) := read_LIMIT_PIN pin w in
  let limit_bits := process_limit_bits reverse_direction raw in
  let ls := debounce_all limit_bits ls in
  if negb (any_axis ls) then Returned w
  else Running ls (send_pulse step_delay (out_bits ls) w).

(** [pulse_loop n] runs at most [n] iterations. *)
Fixpoint pulse_loop (n : nat) (reverse_direction : bool) (step_delay : Z)
    (pin : nat -> Z) (ls : locals) (w : world) : loop_state :=
  match n with
  | O => Running ls w
  | S k =>
      match loop_iteration reverse_direction step_delay pin ls w with
      | Running ls' w' => pulse_loop k reverse_direction step_delay pin ls' w'
      | Returned w' => Returned w'
      end
  end.

(** Line 39. *)
Definition step_delay_of (microseconds_per_pulse : Z) : Z :=
  u32 (microseconds_per_pulse - pulse_microseconds settings).

(** [homing_cycle]; [None] when the loop has not returned within [fuel]
    iterations. *)
Definition homing_cycle (fuel : nat) (x y z c reverse_direction : bool)
    (microseconds_per_pulse : Z) (pin : nat -> Z) (w : world) : option world :=
  let step_delay := step_delay_of microseconds_per_pulse in
  let ls := initial_locals x y z c reverse_direction in
  let w := set_direction_pins (out_bits ls) w in
  match pulse_loop fuel reverse_direction step_delay pin ls w with
  | Returned w' => Some w'
  | Running _ _ => None
  end.

(** *** Lines 138-147: the pulse period *)

Definition fmul : spec_float -> spec_float -> spec_float :=
  SFmul (double_prec cfg) (double_emax cfg).
Definition fdiv : spec_float -> spec_float -> spec_float :=
  SFdiv (double_prec cfg) (double_emax cfg).
(** The floating-point constant of integer value [n]. *)
Definition fconst (n : Z) : spec_float :=
  binary_normalize (double_prec cfg) (double_emax cfg) n 0 false.

Definition FEEDRATE_TO_PERIOD_US (f : spec_float) : spec_float :=
  fmul (fdiv (fconst 60) (fmul f (steps_per_mm settings X_AXIS)))
       (fconst 1000000).

(** Conversion of a [double] argument to the [uint32_t] parameter: the
    fraction is discarded; C leaves the conversion undefined when the
    integral part is not a [uint32_t] value. *)
Definition double_to_uint32 (f : spec_float) : option Z :=
  match f with
  | S754_zero _ => Some 0
  | S754_finite s m e =>
      let i := if 0 <=? e then Z.pos m * 2 ^ e else Z.pos m / 2 ^ (- e) in
      if s then (if i =? 0 then Some 0 else None)
      else if i <? 2 ^ 32 then Some i else None
  | S754_infinity _ | S754_nan => None
  end.

Definition approach_limit_switch (fuel : nat) (x y z c : bool)
    (pin : nat -> Z) (w : world) : option world :=
  match double_to_uint32 (FEEDRATE_TO_PERIOD_US (default_seek_rate settings)) with
  | Some us => homing_cycle fuel x y z c false us pin w
  | None => None
  end.

Definition leave_limit_switch (fuel : nat) (x y z c : bool)
    (pin : nat -> Z) (w : world) : option world :=
  match double_to_uint32 (FEEDRATE_TO_PERIOD_US (default_feed_rate settings)) with
  | Some us => homing_cycle fuel x y z c true us pin w
  | None => None
  end.

(** *** Lines 149-175: the sequencer *)

Definition commit_position (w : world) : world :=
  {| STEPPING_PORT := STEPPING_PORT w;
     sys_position := fun _ => 0;
     reads := reads w;
     log := log w |}.

(** [limits_go_home]; every pass may use up to [fuel] iterations. *)
Definition limits_go_home (fuel : nat) (pin : nat -> Z) (w : world)
    : option world :=
  let w := plan_synchronize w in
  let w := st_enable w in
  let home_x := HOME_X cfg in
  let home_y := HOME_Y cfg in
  let home_z := HOME_Z cfg in
  let home_c := HOME_C cfg in
  match approach_limit_switch fuel false false home_z false pin w with
  | None => None
  | Some w =>
      match approach_limit_switch fuel home_x home_y false home_c pin w with
      | None => None
      | Some w =>
          match leave_limit_switch fuel home_x home_y home_z home_c pin w with
          | None => None
          | Some w => Some (commit_position w)
          end
      end
  end.

(** ** Notions used to state the properties *)

(** The axes passed to a pass. *)
Definition requested (x y z c : bool) (a : axis) : bool :=
  match a with
  | X_AXIS => x
  | Y_AXIS => y
  | Z_AXIS => z
  | C_AXIS => c
  end.

(** World held by a loop state. *)
Definition world_of (s : loop_state) : world :=
  match s with
  | Running _ w => w
  | Returned w => w
  end.

(** The processed limit byte of the [i]-th iteration of a pass that starts
    when [t0] readings of [LIMIT_PIN] have been taken. *)
Definition sample (reverse_direction : bool) (pin : nat -> Z) (t0 i : nat) : Z :=
  process_limit_bits reverse_direction (u8 (pin (t0 + i)%nat)).

(** Axis [a] reads "not triggered" in iteration [i]. *)
Definition quiet (reverse_direction : bool) (pin : nat -> Z) (t0 : nat)
    (a : axis) (i : nat) : bool :=
  negb (limit_bit_set a (sample reverse_direction pin t0 i)).

(** Ten consecutive iterations [k .. k+9] read "not triggered" for [a]. *)
Definition quiet_run (reverse_direction : bool) (pin : nat -> Z) (t0 : nat)
    (a : axis) (k : nat) : Prop :=
  forall i, (k <= i < k + 10)%nat -> quiet reverse_direction pin t0 a i = true.

(** One block of lines 73-120 seen from its own axis: flag and counter. *)
Definition debounce_step (set : bool) (st : bool * Z) : bool * Z :=
  if fst st then
    let count := if negb set then u8 (snd st + 1) else 0 in
    (negb (10 <=? count), count)
  else st.

(** Flag and counter of axis [a] after [n] iterations. *)
Fixpoint track (reverse_direction : bool) (pin : nat -> Z) (t0 : nat)
    (req : bool) (a : axis) (n : nat) : bool * Z :=
  match n with
  | O => (req, 0)
  | S k =>
      debounce_step (negb (quiet reverse_direction pin t0 a k))
        (track reverse_direction pin t0 req a k)
  end.

(** Port latch after one logged access. *)
Definition port_after (p : Z) (e : event) : Z :=
  match e with
  | EvPortWrite v => v
  | EvPinWrite v => Z.lxor p v
  | _ => p
  end.

(** No access of [evs], replayed from latch value [p], changes a bit
    outside [mask]. *)
Fixpoint writes_preserve (mask p : Z) (evs : list event) : Prop :=
  match evs with
  | [] => True
  | e :: r =>
      Z.land (port_after p e) (Z.lnot mask) = Z.land p (Z.lnot mask) /\
      writes_preserve mask (port_after p e) r
  end.

(** Number of pulses seen on output line [bit] in a log: the line is driven
    high by a port write and then toggled back by a pin write. [high] is
    the level of the line before the log. *)
Fixpoint step_pulses (bit : Z) (high : bool) (evs : list event) : nat :=
  match evs with
  | [] => O
  | EvPortWrite v :: r => step_pulses bit (Z.testbit v bit) r
  | EvPinWrite v :: r =>
      if Z.testbit v bit
      then ((if high then 1 else 0) + step_pulses bit (negb high) r)%nat
      else step_pulses bit high r
  | _ :: r => step_pulses bit high r
  end.

(** The step lines are eight-bit positions, pairwise distinct, all in
    [STEP_MASK], none in [DIRECTION_MASK], and none of them is inverted by
    [settings.invert_mask_stepdir]. *)
Definition axes : list axis := [X_AXIS; Y_AXIS; Z_AXIS; C_AXIS].

Definition step_lines_plain : bool :=
  forallb (fun a =>
    (0 <=? STEP_BIT a) && (STEP_BIT a <? 8)
    && Z.testbit (STEP_MASK cfg) (STEP_BIT a)
    && negb (Z.testbit (DIRECTION_MASK cfg) (STEP_BIT a))
    && negb (Z.testbit (invert_mask_stepdir settings) (STEP_BIT a))
    && forallb (fun b => axis_eqb a b || negb (STEP_BIT a =? STEP_BIT b)) axes)
    axes.

(** The step bit of each axis in the output word mirrors its flag. *)
Definition step_bits_mirror (ls : locals) : Prop :=
  forall a, Z.testbit (out_bits ls) (STEP_BIT a) = axis_flag a ls.

(** The output accesses of the iteration entered with [ls] and [w]. *)
Definition iteration_events (reverse_direction : bool) (step_delay : Z)
    (pin : nat -> Z) (ls : locals) (w : world) : list event :=
  skipn (length (log w))
    (log (world_of (loop_iteration reverse_direction step_delay pin ls w))).

(** Output line [bit] is neither driven high nor toggled by access [e]. *)
Definition line_idle (bit : Z) (e : event) : Prop :=
  match e with
  | EvPortWrite v | EvPinWrite v => Z.testbit v bit = false
  | _ => True
  end.

(** *** Lines 31-36: [limits_init]; [pullup] is [#ifdef LIMIT_PULLUP] *)

Definition limits_init (pullup : bool) (r : limit_port) : limit_port :=
  let ddr := u8 (Z.land (LIMIT_DDR r) (Z.lnot (LIMIT_MASK cfg))) in
  let port :=
    if pullup then u8 (Z.lor (LIMIT_PORT r) (LIMIT_MASK cfg))
    else LIMIT_PORT r in
  {| LIMIT_DDR := ddr; LIMIT_PORT := port |}.

(** [k] starts the first run of ten "not triggered" iterations of [a]. *)
Definition first_quiet_run (reverse_direction : bool) (pin : nat -> Z)
    (t0 : nat) (a : axis) (k : nat) : Prop :=
  quiet_run reverse_direction pin t0 a k /\
  forall j, (j < k)%nat -> ~ quiet_run reverse_direction pin t0 a j.

(** Number of the first [n] iterations that leave axis [a] active. *)
Fixpoint active_iterations (reverse_direction : bool) (pin : nat -> Z)
    (t0 : nat) (req : bool) (a : axis) (n : nat) : nat :=
  match n with
  | O => O
  | S m =>
      (active_iterations reverse_direction pin t0 req a m +
       if fst (track reverse_direction pin t0 req a (S m)) then 1 else 0)%nat
  end.

(** The step lines are eight-bit positions, pairwise distinct, all in
    [STEP_MASK] and none in [DIRECTION_MASK]; they may be inverted. *)
Definition step_lines_wired : bool :=
  forallb (fun a =>
    (0 <=? STEP_BIT a) && (STEP_BIT a <? 8)
    && Z.testbit (STEP_MASK cfg) (STEP_BIT a)
    && negb (Z.testbit (DIRECTION_MASK cfg) (STEP_BIT a))
    && forallb (fun b => axis_eqb a b || negb (STEP_BIT a =? STEP_BIT b)) axes)
    axes.

(** The step line of axis [a] is inverted by the settings. *)
Definition step_inverted (a : axis) : bool :=
  Z.testbit (invert_mask_stepdir settings) (STEP_BIT a).

(** The step bit of each axis in the output word is its flag, flipped when
    the line is inverted. *)
Definition step_bits_follow (ls : locals) : Prop :=
  forall a,
    Z.testbit (out_bits ls) (STEP_BIT a) = xorb (axis_flag a ls) (step_inverted a).

(** Exact value of a finite floating-point number. *)
Definition SF2Q (f : spec_float) : option Q :=
  match f with
  | S754_zero _ => Some 0%Q
  | S754_finite s m e =>
      let v :=
        if 0 <=? e then inject_Z (Z.pos m * 2 ^ e)
        else Qmake (Z.pos m) (Z.to_pos (2 ^ (- e))) in
      Some (if s then Qopp v else v)
  | _ => None
  end.

(** The period for a whole rate [r] and a whole number [s] of steps per
    mm, in the format [(prec, emax)]: the formula of lines 138-139,
    converted as at the call. *)
Definition period_at (prec emax r s : Z) : option Z :=
  let num n := binary_normalize prec emax n 0 false in
  double_to_uint32
    (SFmul prec emax
       (SFdiv prec emax (num 60) (SFmul prec emax (num r) (num s)))
       (num 1000000)).

(** The period is the whole part of 60000000 / (r s), or up to [slack]
    more. *)
Definition near_quotient (slack prec emax r s : Z) : bool :=
  match period_at prec emax r s with
  | Some us =>
      (60000000 / (r * s) <=? us) && (us <=? 60000000 / (r * s) + slack)
  | None => false
  end.

Definition whole (n : nat) : list Z := map Z.of_nat (seq 1 n).

Definition period_check (slack prec emax : Z) (R S : nat) : bool :=
  forallb
    (fun r => forallb (fun s => near_quotient slack prec emax r s) (whole S))
    (whole R).

(** The arguments of the [delay_us] calls of a log, oldest first. *)
Fixpoint hold_times (evs : list event) : list Z :=
  match evs with
  | [] => []
  | EvDelay us :: r => us :: hold_times r
  | _ :: r => hold_times r
  end.

(** ** Machine-integer facts *)

Lemma u8_testbit (x i : Z) :
  0 <= i -> Z.testbit (u8 x) i = Z.testbit x i && (i <? 8).
Proof.
  intros Hi. unfold u8. change 255 with (Z.ones 8).
  rewrite Z.land_spec, Z.testbit_ones by lia.
  replace (0 <=? i) with true by (symmetry; apply Z.leb_le; lia).
  reflexivity.
Qed.

Lemma u8_range (x : Z) : 0 <= u8 x < 256.
Proof.
  unfold u8. change 255 with (Z.ones 8).
  rewrite Z.land_ones by lia. apply Z.mod_pos_bound. lia.
Qed.

Lemma u8_small (x : Z) : 0 <= x < 256 -> u8 x = x.
Proof.
  intros Hx. unfold u8. change 255 with (Z.ones 8).
  rewrite Z.land_ones by lia. apply Z.mod_small. exact Hx.
Qed.

Lemma u8_idem (x : Z) : u8 (u8 x) = u8 x.
Proof. apply u8_small, u8_range. Qed.

Lemma testbit_high_u8 (p i : Z) : 0 <= p < 256 -> 8 <= i -> Z.testbit p i = false.
Proof.
  intros Hp Hi. rewrite <- (u8_small p Hp), u8_testbit by lia.
  replace (i <? 8) with false by (symmetry; apply Z.ltb_ge; lia).
  apply andb_false_r.
Qed.

Lemma shiftl_1_testbit (n i : Z) :
  0 <= n -> Z.testbit (Z.shiftl 1 n) i = (n =? i).
Proof.
  intros Hn. rewrite Z.shiftl_1_l. apply Z.pow2_bits_eqb. exact Hn.
Qed.

Lemma land_bit_zero (x n : Z) :
  0 <= n -> (Z.land x (Z.shiftl 1 n) =? 0) = negb (Z.testbit x n).
Proof.
  intros Hn. destruct (Z.testbit x n) eqn:Hb; simpl.
  - apply Z.eqb_neq. intros H0.
    assert (Hc : Z.testbit (Z.land x (Z.shiftl 1 n)) n = true).
    { rewrite Z.land_spec, Hb, shiftl_1_testbit, Z.eqb_refl by lia.
      reflexivity. }
    rewrite H0, Z.bits_0 in Hc. discriminate.
  - apply Z.eqb_eq. apply Z.bits_inj'. intros i Hi.
    rewrite Z.land_spec, Z.bits_0, shiftl_1_testbit by lia.
    destruct (Z.eqb_spec n i) as [->|]; [rewrite Hb|]; auto using andb_false_r.
Qed.

Lemma limit_bit_set_testbit (a : axis) (limit_bits : Z) :
  0 <= LIMIT_BIT a ->
  limit_bit_set a limit_bits = Z.testbit limit_bits (LIMIT_BIT a).
Proof.
  intros Hb. unfold limit_bit_set. rewrite land_bit_zero by exact Hb.
  apply negb_involutive.
Qed.

(** ** The per-axis blocks *)

Lemma debounce_axis_view (a b : axis) (limit_bits : Z) (ls : locals) :
  (axis_flag a (debounce_axis b limit_bits ls),
   limit_count a (debounce_axis b limit_bits ls)) =
  if axis_eqb a b
  then debounce_step (limit_bit_set b limit_bits)
         (axis_flag a ls, limit_count a ls)
  else (axis_flag a ls, limit_count a ls).
Proof.
  unfold debounce_axis, debounce_step, set_limit_count, stop_axis.
  destruct (axis_flag b ls) eqn:Hb;
    destruct (limit_bit_set b limit_bits) eqn:Hs;
    destruct a, b; simpl in *; rewrite ?Hb; simpl; try reflexivity;
    match goal with
    | |- context [10 <=? ?c] => destruct (10 <=? c)
    end; reflexivity.
Qed.

Lemma debounce_all_view (a : axis) (limit_bits : Z) (ls : locals) :
  (axis_flag a (debounce_all limit_bits ls),
   limit_count a (debounce_all limit_bits ls)) =
  debounce_step (limit_bit_set a limit_bits) (axis_flag a ls, limit_count a ls).
Proof.
  unfold debounce_all. rewrite !debounce_axis_view.
  destruct a; reflexivity.
Qed.

Lemma debounce_all_flag (a : axis) (limit_bits : Z) (ls : locals) :
  axis_flag a (debounce_all limit_bits ls) =
  fst (debounce_step (limit_bit_set a limit_bits)
         (axis_flag a ls, limit_count a ls)).
Proof. rewrite <- debounce_all_view. reflexivity. Qed.

Lemma debounce_all_count (a : axis) (limit_bits : Z) (ls : locals) :
  limit_count a (debounce_all limit_bits ls) =
  snd (debounce_step (limit_bit_set a limit_bits)
         (axis_flag a ls, limit_count a ls)).
Proof. rewrite <- debounce_all_view. reflexivity. Qed.

Lemma any_axis_false (ls : locals) :
  any_axis ls = false <-> forall a, axis_flag a ls = false.
Proof.
  unfold any_axis. split.
  - intros H a.
    destruct (x_axis ls) eqn:?, (y_axis ls) eqn:?, (z_axis ls) eqn:?,
      (c_axis ls) eqn:?; try discriminate; destruct a; assumption.
  - intros H.
    rewrite (H X_AXIS : x_axis ls = false), (H Y_AXIS : y_axis ls = false),
      (H Z_AXIS : z_axis ls = false), (H C_AXIS : c_axis ls = false).
    reflexivity.
Qed.

Lemma any_axis_true (ls : locals) :
  any_axis ls = true <-> exists a, axis_flag a ls = true.
Proof.
  split.
  - intros H. destruct (x_axis ls) eqn:Hx; [exists X_AXIS; exact Hx|].
    destruct (y_axis ls) eqn:Hy; [exists Y_AXIS; exact Hy|].
    destruct (z_axis ls) eqn:Hz; [exists Z_AXIS; exact Hz|].
    destruct (c_axis ls) eqn:Hc; [exists C_AXIS; exact Hc|].
    unfold any_axis in H. rewrite Hx, Hy, Hz, Hc in H. discriminate.
  - intros [a Ha]. destruct (any_axis ls) eqn:E; [reflexivity|].
    rewrite (proj1 (any_axis_false ls) E a) in Ha. discriminate.
Qed.

(** ** The loop, iteration by iteration *)

Lemma loop_iteration_eq (rev : bool) (sd : Z) (pin : nat -> Z)
    (ls : locals) (w : world) :
  loop_iteration rev sd pin ls w =
  let ls' := debounce_all (process_limit_bits rev (u8 (pin (reads w)))) ls in
  let w1 := snd (read_LIMIT_PIN pin w) in
  if any_axis ls' then Running ls' (send_pulse sd (out_bits ls') w1)
  else Returned w1.
Proof.
  unfold loop_iteration, read_LIMIT_PIN. simpl.
  destruct (any_axis _); reflexivity.
Qed.

Lemma pulse_loop_last (n : nat) (rev : bool) (sd : Z) (pin : nat -> Z)
    (ls : locals) (w : world) :
  pulse_loop (S n) rev sd pin ls w =
  match pulse_loop n rev sd pin ls w with
  | Running ls' w' => loop_iteration rev sd pin ls' w'
  | Returned w' => Returned w'
  end.
Proof.
  revert ls w. induction n as [|n IH]; intros ls w.
  - simpl. destruct (loop_iteration rev sd pin ls w); reflexivity.
  - change (pulse_loop (S (S n)) rev sd pin ls w) with
      (match loop_iteration rev sd pin ls w with
       | Running ls' w' => pulse_loop (S n) rev sd pin ls' w'
       | Returned w' => Returned w'
       end).
    destruct (loop_iteration rev sd pin ls w) as [ls1 w1|w1] eqn:E.
    + rewrite IH. simpl. rewrite E. reflexivity.
    + simpl. rewrite E. reflexivity.
Qed.

Lemma pulse_loop_returned_more (n m : nat) (rev : bool) (sd : Z)
    (pin : nat -> Z) (ls : locals) (w w' : world) :
  pulse_loop n rev sd pin ls w = Returned w' ->
  pulse_loop (n + m) rev sd pin ls w = Returned w'.
Proof.
  intros H. induction m as [|m IH].
  - rewrite Nat.add_0_r. exact H.
  - rewrite Nat.add_succ_r, pulse_loop_last, IH. reflexivity.
Qed.

Lemma send_pulse_reads (sd out : Z) (w : world) :
  reads (send_pulse sd out w) = reads w.
Proof. reflexivity. Qed.

Lemma send_pulse_position (sd out : Z) (w : world) :
  sys_position (send_pulse sd out w) = sys_position w.
Proof. reflexivity. Qed.

(** ** Flag and counter of one axis along a pass *)

Lemma loop_reads (n : nat) (rev : bool) (sd : Z) (pin : nat -> Z)
    (ls : locals) (w : world) (ls' : locals) (w' : world) :
  pulse_loop n rev sd pin ls w = Running ls' w' ->
  reads w' = (reads w + n)%nat.
Proof.
  revert ls' w'. induction n as [|n IH]; intros ls' w' H.
  - simpl in H. injection H as _ <-. lia.
  - rewrite pulse_loop_last in H.
    destruct (pulse_loop n rev sd pin ls w) as [ls1 w1|w1]; [|discriminate].
    specialize (IH ls1 w1 eq_refl).
    rewrite loop_iteration_eq in H. cbv zeta in H.
    destruct (any_axis _); [|discriminate].
    injection H as _ <-. rewrite send_pulse_reads. simpl. lia.
Qed.

Lemma loop_track (n : nat) (x y z c rev : bool) (sd : Z) (pin : nat -> Z)
    (w0 : world) (ls : locals) (w : world) (a : axis) :
  pulse_loop n rev sd pin (initial_locals x y z c rev) w0 = Running ls w ->
  (axis_flag a ls, limit_count a ls) =
  track rev pin (reads w0) (requested x y z c a) a n.
Proof.
  revert ls w. induction n as [|n IH]; intros ls w H.
  - simpl in H. injection H as <- _. destruct a; reflexivity.
  - rewrite pulse_loop_last in H.
    destruct (pulse_loop n rev sd pin (initial_locals x y z c rev) w0)
      as [ls1 w1|w1] eqn:E; [|discriminate].
    rewrite loop_iteration_eq in H. cbv zeta in H.
    destruct (any_axis _); [|discriminate].
    injection H as <- _.
    rewrite debounce_all_view, (IH ls1 w1 eq_refl), (loop_reads _ _ _ _ _ _ _ _ E).
    simpl. unfold quiet, sample. rewrite negb_involutive. reflexivity.
Qed.

Lemma track_unrequested (rev : bool) (pin : nat -> Z) (t0 : nat)
    (a : axis) (n : nat) :
  track rev pin t0 false a n = (false, 0).
Proof.
  induction n as [|n IH]; [reflexivity|]. simpl. rewrite IH. reflexivity.
Qed.

Lemma track_stopped_stays (rev : bool) (pin : nat -> Z) (t0 : nat)
    (req : bool) (a : axis) (n m : nat) :
  fst (track rev pin t0 req a n) = false ->
  fst (track rev pin t0 req a (n + m)) = false.
Proof.
  intros H. induction m as [|m IH].
  - rewrite Nat.add_0_r. exact H.
  - rewrite Nat.add_succ_r. simpl. unfold debounce_step. rewrite IH. exact IH.
Qed.

Lemma track_count_range (rev : bool) (pin : nat -> Z) (t0 : nat)
    (req : bool) (a : axis) (n : nat) :
  fst (track rev pin t0 req a n) = true ->
  0 <= snd (track rev pin t0 req a n) < 10.
Proof.
  destruct n as [|n]; simpl; [lia|].
  unfold debounce_step.
  destruct (fst (track rev pin t0 req a n)) eqn:F; [|congruence].
  simpl. intros H. apply negb_true_iff, Z.leb_gt in H.
  destruct (negb (negb (quiet rev pin t0 a n))).
  - pose proof (u8_range (snd (track rev pin t0 req a n) + 1)). lia.
  - lia.
Qed.

Lemma track_step_quiet (rev : bool) (pin : nat -> Z) (t0 : nat)
    (req : bool) (a : axis) (n : nat) :
  fst (track rev pin t0 req a n) = true ->
  quiet rev pin t0 a n = true ->
  track rev pin t0 req a (S n) =
  (negb (10 <=? snd (track rev pin t0 req a n) + 1),
   snd (track rev pin t0 req a n) + 1).
Proof.
  intros F Q. pose proof (track_count_range _ _ _ _ _ _ F) as R.
  simpl. unfold debounce_step. rewrite F, Q. simpl.
  rewrite u8_small by lia. reflexivity.
Qed.

Lemma track_step_set (rev : bool) (pin : nat -> Z) (t0 : nat)
    (req : bool) (a : axis) (n : nat) :
  fst (track rev pin t0 req a n) = true ->
  quiet rev pin t0 a n = false ->
  track rev pin t0 req a (S n) = (true, 0).
Proof.
  intros F Q. simpl. unfold debounce_step. rewrite F, Q. reflexivity.
Qed.

(** While the axis is active its counter is the length of the current run
    of "not triggered" readings and no run of ten has been completed; once
    it is stopped, such a run has been seen. *)
Lemma track_invariant (rev : bool) (pin : nat -> Z) (t0 : nat)
    (a : axis) (n : nat) :
  (fst (track rev pin t0 true a n) = true ->
   exists cn : nat,
     snd (track rev pin t0 true a n) = Z.of_nat cn /\
     (cn < 10)%nat /\ (cn <= n)%nat /\
     (forall i, (n - cn <= i < n)%nat -> quiet rev pin t0 a i = true) /\
     ((cn < n)%nat -> quiet rev pin t0 a (n - cn - 1) = false) /\
     (forall k, (k + 10 <= n)%nat -> ~ quiet_run rev pin t0 a k)) /\
  (fst (track rev pin t0 true a n) = false ->
   exists k, (k + 10 <= n)%nat /\ quiet_run rev pin t0 a k).
Proof.
  induction n as [|n [IHt IHf]].
  - simpl. split; [|discriminate].
    intros _. exists O. repeat split; try lia; intros; lia.
  - destruct (fst (track rev pin t0 true a n)) eqn:F.
    + destruct (IHt eq_refl) as (cn & Hc & Hlt & Hle & Hrun & Hprev & Hno).
      destruct (quiet rev pin t0 a n) eqn:Q.
      * rewrite (track_step_quiet _ _ _ _ _ _ F Q), Hc. simpl fst. simpl snd.
        destruct (Z.leb_spec 10 (Z.of_nat cn + 1)) as [Hten|Hten]; simpl.
        -- split; [discriminate|]. intros _.
           exists (n - 9)%nat. split; [lia|].
           intros i Hi. destruct (Nat.eq_dec i n) as [->|Hne]; [exact Q|].
           apply Hrun. lia.
        -- split; [|discriminate]. intros _.
           exists (S cn). repeat split; try lia.
           ++ intros i Hi. destruct (Nat.eq_dec i n) as [->|Hne]; [exact Q|].
              apply Hrun. lia.
           ++ intros Hlt'. replace (S n - S cn - 1)%nat with (n - cn - 1)%nat by lia.
              apply Hprev. lia.
           ++ intros k Hk Hwin.
              destruct (Nat.le_gt_cases (k + 10) n) as [Hin|Hout].
              ** exact (Hno k Hin Hwin).
              ** assert (Hcn : (cn < n)%nat) by lia.
                 specialize (Hprev Hcn).
                 rewrite (Hwin (n - cn - 1)%nat) in Hprev by lia.
                 discriminate.
      * rewrite (track_step_set _ _ _ _ _ _ F Q). simpl.
        split; [|discriminate]. intros _.
        exists O. repeat split; try lia.
        -- intros _. replace (S n - 1)%nat with n by lia. exact Q.
        -- intros k Hk Hwin.
           destruct (Nat.le_gt_cases (k + 10) n) as [Hin|Hout].
           ++ exact (Hno k Hin Hwin).
           ++ rewrite (Hwin n) in Q by lia. discriminate.
    + assert (F' : fst (track rev pin t0 true a (S n)) = false).
      { replace (S n) with (n + 1)%nat by lia.
        apply track_stopped_stays. exact F. }
      rewrite F'. split; [discriminate|]. intros _.
      destruct (IHf eq_refl) as (k & Hk & Hwin).
      exists k. split; [lia|exact Hwin].
Qed.

Lemma track_stopped_iff (rev : bool) (pin : nat -> Z) (t0 : nat)
    (req : bool) (a : axis) (n : nat) :
  fst (track rev pin t0 req a n) = false <->
  req = false \/ exists k, (k + 10 <= n)%nat /\ quiet_run rev pin t0 a k.
Proof.
  destruct req.
  - destruct (track_invariant rev pin t0 a n) as [Ht Hf]. split.
    + intros H. right. exact (Hf H).
    + intros [H|(k & Hk & Hwin)]; [discriminate|].
      destruct (fst (track rev pin t0 true a n)) eqn:F; [|reflexivity].
      destruct (Ht eq_refl) as (_ & _ & _ & _ & _ & _ & Hno).
      destruct (Hno k Hk Hwin).
  - rewrite track_unrequested. simpl. split; auto.
Qed.

(** ** When the loop returns *)

Lemma loop_returns_when_all_stopped (n : nat) (x y z c rev : bool) (sd : Z)
    (pin : nat -> Z) (w0 : world) :
  (forall a, fst (track rev pin (reads w0) (requested x y z c a) a (S n)) = false) ->
  exists w', pulse_loop (S n) rev sd pin (initial_locals x y z c rev) w0
             = Returned w'.
Proof.
  intros Hall. rewrite pulse_loop_last.
  destruct (pulse_loop n rev sd pin (initial_locals x y z c rev) w0)
    as [ls1 w1|w1] eqn:E; [|eauto].
  rewrite loop_iteration_eq. cbv zeta.
  match goal with |- context [any_axis ?l] => destruct (any_axis l) eqn:A end;
    [|eauto].
  apply any_axis_true in A. destruct A as [a Ha].
  rewrite debounce_all_flag, (loop_track _ _ _ _ _ _ _ _ _ _ _ a E),
    (loop_reads _ _ _ _ _ _ _ _ E) in Ha.
  specialize (Hall a). simpl in Hall. unfold quiet, sample in Hall.
  rewrite negb_involutive in Hall. rewrite Hall in Ha. discriminate.
Qed.

Lemma loop_returned_all_stopped (n : nat) (x y z c rev : bool) (sd : Z)
    (pin : nat -> Z) (w0 w' : world) :
  pulse_loop n rev sd pin (initial_locals x y z c rev) w0 = Returned w' ->
  forall a, fst (track rev pin (reads w0) (requested x y z c a) a n) = false.
Proof.
  revert w'. induction n as [|n IH]; intros w' H a; [discriminate|].
  rewrite pulse_loop_last in H.
  destruct (pulse_loop n rev sd pin (initial_locals x y z c rev) w0)
    as [ls1 w1|w1] eqn:E.
  - rewrite loop_iteration_eq in H. cbv zeta in H.
    match type of H with context [any_axis ?l] => destruct (any_axis l) eqn:A end;
      [discriminate|].
    pose proof (proj1 (any_axis_false _) A a) as Ha.
    rewrite debounce_all_flag, (loop_track _ _ _ _ _ _ _ _ _ _ _ a E),
      (loop_reads _ _ _ _ _ _ _ _ E) in Ha.
    simpl. unfold quiet, sample. rewrite negb_involutive. exact Ha.
  - replace (S n) with (n + 1)%nat by lia.
    apply track_stopped_stays. exact (IH w1 eq_refl a).
Qed.

Lemma axis_stops_eventually (rev : bool) (pin : nat -> Z) (t0 : nat)
    (req : bool) (a : axis) :
  (req = true -> exists k, quiet_run rev pin t0 a k) ->
  exists n, forall m, fst (track rev pin t0 req a (n + m)) = false.
Proof.
  intros H. destruct req.
  - destruct (H eq_refl) as [k Hk]. exists (k + 10)%nat. intros m.
    apply track_stopped_stays, track_stopped_iff. right. exists k. auto.
  - exists O. intros m. rewrite track_unrequested. reflexivity.
Qed.

Lemma track_quiet_prefix (rev : bool) (pin : nat -> Z) (t0 : nat)
    (a : axis) (n : nat) :
  (n <= 9)%nat ->
  (forall i, (i < n)%nat -> quiet rev pin t0 a i = true) ->
  track rev pin t0 true a n = (true, Z.of_nat n).
Proof.
  induction n as [|n IH]; intros Hn Hq; [reflexivity|].
  assert (E : track rev pin t0 true a n = (true, Z.of_nat n)).
  { apply IH; [lia|]. intros i Hi. apply Hq. lia. }
  rewrite track_step_quiet by (rewrite ?E; auto).
  rewrite E. simpl fst. simpl snd.
  replace (10 <=? Z.of_nat n + 1) with false by (symmetry; apply Z.leb_gt; lia).
  simpl. f_equal. lia.
Qed.

(** ** Properties of the debounce counters and of termination *)

(** C2. For an axis requested in a pass the counter starts at 0. At every
    iteration that the axis enters active, its counter is below 10; a
    processed limit bit that is set ("triggered") puts the counter back to
    0 and keeps the axis active; a clear bit ("not triggered") adds exactly
    1; the axis is stopped by the iteration if and only if that iteration
    brings the counter to 10; the loop goes on with these flags and
    counters if any axis is left active and returns otherwise. Nine "not
    triggered" readings followed by a "triggered" one leave the axis
    active with counter 0. *)
Theorem debounce_counter_contract (x y z c rev : bool) (sd : Z)
    (pin : nat -> Z) (w0 : world) (a : axis) :
  requested x y z c a = true ->
  limit_count a (initial_locals x y z c rev) = 0 /\
  (forall n ls w,
     pulse_loop n rev sd pin (initial_locals x y z c rev) w0 = Running ls w ->
     axis_flag a ls = true ->
     let limit_bits := process_limit_bits rev (u8 (pin (reads w))) in
     let ls' := debounce_all limit_bits ls in
     0 <= limit_count a ls < 10 /\
     (limit_bit_set a limit_bits = true ->
        limit_count a ls' = 0 /\ axis_flag a ls' = true) /\
     (limit_bit_set a limit_bits = false ->
        limit_count a ls' = limit_count a ls + 1) /\
     (axis_flag a ls' = false <-> limit_count a ls' = 10) /\
     (forall ls2 w2,
        loop_iteration rev sd pin ls w = Running ls2 w2 -> ls2 = ls') /\
     pulse_loop (S n) rev sd pin (initial_locals x y z c rev) w0 =
       (if any_axis ls'
        then Running ls'
               (send_pulse sd (out_bits ls') (snd (read_LIMIT_PIN pin w)))
        else Returned (snd (read_LIMIT_PIN pin w)))) /\
  ((forall i, (i < 9)%nat -> quiet rev pin (reads w0) a i = true) ->
   quiet rev pin (reads w0) a 9 = false ->
   exists ls w,
     pulse_loop 10 rev sd pin (initial_locals x y z c rev) w0 = Running ls w /\
     limit_count a ls = 0 /\ axis_flag a ls = true).
Proof.
  intros Hreq. split; [destruct a; reflexivity|]. split.
  - intros n ls w Hrun Hact limit_bits ls'.
    pose proof (loop_track _ _ _ _ _ _ _ _ _ _ _ a Hrun) as Htr.
    rewrite Hreq in Htr.
    assert (Hrange : 0 <= limit_count a ls < 10).
    { pose proof (track_count_range rev pin (reads w0) true a n) as R.
      rewrite <- Htr in R. simpl in R. auto. }
    pose proof (debounce_all_view a limit_bits ls) as V.
    fold ls' in V. rewrite Hact in V. unfold debounce_step in V. simpl in V.
    assert (Hnext : forall ls2 w2,
              loop_iteration rev sd pin ls w = Running ls2 w2 -> ls2 = ls').
    { intros ls2 w2 Hit. rewrite loop_iteration_eq in Hit. cbv zeta in Hit.
      destruct (any_axis _); [|discriminate]. injection Hit as <- _.
      reflexivity. }
    assert (Hloop :
      pulse_loop (S n) rev sd pin (initial_locals x y z c rev) w0 =
      (if any_axis ls'
       then Running ls'
              (send_pulse sd (out_bits ls') (snd (read_LIMIT_PIN pin w)))
       else Returned (snd (read_LIMIT_PIN pin w)))).
    { rewrite pulse_loop_last, Hrun, loop_iteration_eq. reflexivity. }
    split; [exact Hrange|].
    destruct (limit_bit_set a limit_bits) eqn:Hset; simpl in V.
    + injection V as Vf Vc. rewrite Vf, Vc.
      split; [auto|]. split; [discriminate|]. split; [|auto].
      split; [discriminate|lia].
    + rewrite u8_small in V by lia. injection V as Vf Vc. rewrite Vf, Vc.
      split; [discriminate|]. split; [auto|]. split; [|auto].
      split.
      * intros Hstop. apply negb_false_iff, Z.leb_le in Hstop. lia.
      * intros Hten. apply negb_false_iff, Z.leb_le. lia.
  - intros Hq Hset.
    assert (T9 : track rev pin (reads w0) true a 9 = (true, 9)).
    { apply (track_quiet_prefix rev pin (reads w0) a 9); [lia|exact Hq]. }
    assert (T10 : track rev pin (reads w0) true a 10 = (true, 0)).
    { apply track_step_set; [rewrite T9; reflexivity|exact Hset]. }
    destruct (pulse_loop 10 rev sd pin (initial_locals x y z c rev) w0)
      as [ls w|w] eqn:E.
    + exists ls, w. split; [reflexivity|].
      pose proof (loop_track _ _ _ _ _ _ _ _ _ _ _ a E) as Htr.
      rewrite Hreq, T10 in Htr. injection Htr as Hf Hc. auto.
    + pose proof (loop_returned_all_stopped _ _ _ _ _ _ _ _ _ _ E a) as Hs.
      rewrite Hreq, T10 in Hs. discriminate.
Qed.

(** C8. A pass returns (for some amount of fuel) if and only if every
    requested axis has ten consecutive iterations in which its processed
    limit bit reads "not triggered"; if some requested axis never has such
    a run, the pass does not return, whatever the fuel. *)
Theorem homing_cycle_returns_iff_quiet_runs (x y z c rev : bool) (us : Z)
    (pin : nat -> Z) (w : world) :
  ((exists fuel w', homing_cycle fuel x y z c rev us pin w = Some w') <->
   (forall a, requested x y z c a = true ->
              exists k, quiet_run rev pin (reads w) a k)) /\
  ((exists a, requested x y z c a = true /\
              forall k, ~ quiet_run rev pin (reads w) a k) ->
   forall fuel, homing_cycle fuel x y z c rev us pin w = None).
Proof.
  assert (Hiff :
    (exists fuel w', homing_cycle fuel x y z c rev us pin w = Some w') <->
    (forall a, requested x y z c a = true ->
               exists k, quiet_run rev pin (reads w) a k)).
  { unfold homing_cycle. cbv zeta.
    set (w1 := set_direction_pins _ w).
    change (reads w) with (reads w1).
    split.
    - intros (fuel & w' & H) a Hreq.
      destruct (pulse_loop fuel rev (step_delay_of us) pin
                  (initial_locals x y z c rev) w1) as [ls2 w2|w2] eqn:E;
        [discriminate|].
      pose proof (loop_returned_all_stopped _ _ _ _ _ _ _ _ _ _ E a) as Hs.
      apply track_stopped_iff in Hs. rewrite Hreq in Hs.
      destruct Hs as [Hs|(k & _ & Hk)]; [discriminate|eauto].
    - intros Hruns.
      destruct (axis_stops_eventually rev pin (reads w1) _ X_AXIS
                  (Hruns X_AXIS)) as [nx Hx].
      destruct (axis_stops_eventually rev pin (reads w1) _ Y_AXIS
                  (Hruns Y_AXIS)) as [ny Hy].
      destruct (axis_stops_eventually rev pin (reads w1) _ Z_AXIS
                  (Hruns Z_AXIS)) as [nz Hz].
      destruct (axis_stops_eventually rev pin (reads w1) _ C_AXIS
                  (Hruns C_AXIS)) as [nc Hc].
      destruct (loop_returns_when_all_stopped (nx + ny + nz + nc) x y z c rev
                  (step_delay_of us) pin w1) as [w' Hw'].
      { intros [].
        - replace (S (nx + ny + nz + nc)) with (nx + (ny + nz + nc + 1))%nat by lia.
          apply Hx.
        - replace (S (nx + ny + nz + nc)) with (ny + (nx + nz + nc + 1))%nat by lia.
          apply Hy.
        - replace (S (nx + ny + nz + nc)) with (nz + (nx + ny + nc + 1))%nat by lia.
          apply Hz.
        - replace (S (nx + ny + nz + nc)) with (nc + (nx + ny + nz + 1))%nat by lia.
          apply Hc. }
      exists (S (nx + ny + nz + nc)), w'. rewrite Hw'. reflexivity. }
  split; [exact Hiff|].
  intros (a & Hreq & Hnever) fuel.
  destruct (homing_cycle fuel x y z c rev us pin w) as [w'|] eqn:E;
    [|reflexivity].
  destruct (proj1 Hiff (ex_intro _ fuel (ex_intro _ w' E)) a Hreq) as [k Hk].
  destruct (Hnever k Hk).
Qed.

(** ** The output word and the step lines *)

Lemma step_lines_plain_spec :
  step_lines_plain = true ->
  forall a,
    0 <= STEP_BIT a < 8 /\
    Z.testbit (STEP_MASK cfg) (STEP_BIT a) = true /\
    Z.testbit (DIRECTION_MASK cfg) (STEP_BIT a) = false /\
    Z.testbit (invert_mask_stepdir settings) (STEP_BIT a) = false /\
    forall b, STEP_BIT a = STEP_BIT b -> a = b.
Proof.
  unfold step_lines_plain. rewrite forallb_forall. intros H a.
  assert (Ha : In a axes) by (destruct a; simpl; tauto).
  specialize (H a Ha). rewrite !andb_true_iff in H.
  destruct H as (((((H1 & H2) & H3) & H4) & H5) & H6).
  repeat split.
  - apply Z.leb_le. exact H1.
  - apply Z.ltb_lt. exact H2.
  - exact H3.
  - apply negb_true_iff. exact H4.
  - apply negb_true_iff. exact H5.
  - intros b Hab. rewrite forallb_forall in H6.
    assert (Hb : In b axes) by (destruct b; simpl; tauto).
    specialize (H6 b Hb). apply orb_true_iff in H6. destruct H6 as [H6|H6].
    + destruct a, b; simpl in *; try discriminate; reflexivity.
    + apply negb_true_iff, Z.eqb_neq in H6. contradiction.
Qed.

Lemma or_step_bit_testbit (f : bool) (out sb i : Z) :
  0 <= sb -> 0 <= i < 8 ->
  Z.testbit (if f then u8 (Z.lor out (Z.shiftl 1 sb)) else out) i =
  Z.testbit out i || (f && (sb =? i)).
Proof.
  intros Hsb Hi. destruct f; simpl.
  - rewrite u8_testbit, Z.lor_spec, shiftl_1_testbit by lia.
    replace (i <? 8) with true by (symmetry; apply Z.ltb_lt; lia).
    apply andb_true_r.
  - symmetry. apply orb_false_r.
Qed.

Lemma or_step_bit_keeps (f : bool) (out s i : Z) :
  0 <= i < 8 ->
  Z.testbit out i = true ->
  Z.testbit (if f then u8 (Z.lor out s) else out) i = true.
Proof.
  intros Hi Hb. destruct f; [|exact Hb].
  rewrite u8_testbit, Z.lor_spec, Hb by lia. simpl.
  apply Z.ltb_lt. lia.
Qed.

Lemma xor_mask_testbit (f : bool) (out m i : Z) :
  0 <= i < 8 ->
  Z.testbit (if f then u8 (Z.lxor out m) else out) i =
  xorb (Z.testbit out i) (f && Z.testbit m i).
Proof.
  intros Hi. destruct f; simpl.
  - rewrite u8_testbit, Z.lxor_spec by lia.
    replace (i <? 8) with true by (symmetry; apply Z.ltb_lt; lia).
    apply andb_true_r.
  - symmetry. apply xorb_false_r.
Qed.

(** The direction bits of the output word do not depend on the axes. *)
Lemma initial_out_bits_direction (x y z c rev : bool) (i : Z) :
  0 <= i < 8 ->
  Z.testbit (DIRECTION_MASK cfg) i = true ->
  Z.testbit (initial_out_bits x y z c rev) i =
  xorb (negb rev) (Z.testbit (invert_mask_stepdir settings) i).
Proof.
  intros Hi Hd. unfold initial_out_bits. cbv zeta.
  rewrite (xor_mask_testbit true) by exact Hi.
  rewrite xor_mask_testbit by exact Hi.
  match goal with
  | |- xorb (xorb (Z.testbit ?o i) _) _ = _ =>
      assert (K : Z.testbit o i = true)
  end.
  { repeat (apply or_step_bit_keeps; [exact Hi|]).
    rewrite u8_testbit, Hd by lia. simpl. apply Z.ltb_lt. lia. }
  rewrite K, Hd. destruct rev; reflexivity.
Qed.

(** With plain step lines the step bit of every axis is set exactly for
    the requested axes. *)
Lemma initial_out_bits_step (x y z c rev : bool) (a : axis) :
  step_lines_plain = true ->
  Z.testbit (initial_out_bits x y z c rev) (STEP_BIT a) = requested x y z c a.
Proof.
  intros Hw. pose proof (step_lines_plain_spec Hw) as W.
  destruct (W a) as (Ha & _ & Hd & Hinv & Hinj).
  destruct (W X_AXIS) as (Hx & _). destruct (W Y_AXIS) as (Hy & _).
  destruct (W Z_AXIS) as (Hz & _). destruct (W C_AXIS) as (Hc & _).
  unfold initial_out_bits. cbv zeta.
  rewrite (xor_mask_testbit true), xor_mask_testbit by exact Ha.
  rewrite !or_step_bit_testbit by (simpl in *; lia).
  rewrite u8_testbit, Hd, Hinv by lia.
  rewrite !andb_false_r, !xorb_false_r. simpl.
  assert (E : forall b, (STEP_BIT b =? STEP_BIT a) = axis_eqb b a).
  { intros b. destruct (Z.eqb_spec (STEP_BIT b) (STEP_BIT a)) as [Heq|Hne].
    - symmetry in Heq. rewrite (Hinj b Heq). destruct b; reflexivity.
    - destruct b, a; simpl; try reflexivity; contradiction Hne; reflexivity. }
  change (X_STEP_BIT cfg) with (STEP_BIT X_AXIS).
  change (Y_STEP_BIT cfg) with (STEP_BIT Y_AXIS).
  change (Z_STEP_BIT cfg) with (STEP_BIT Z_AXIS).
  change (C_STEP_BIT cfg) with (STEP_BIT C_AXIS).
  rewrite !E.
  destruct a, x, y, z, c; reflexivity.
Qed.

Lemma debounce_axis_out_bits (b : axis) (limit_bits : Z) (ls : locals) :
  out_bits (debounce_axis b limit_bits ls) =
  if axis_flag b ls && negb (axis_flag b (debounce_axis b limit_bits ls))
  then u8 (Z.lxor (out_bits ls) (Z.shiftl 1 (STEP_BIT b)))
  else out_bits ls.
Proof.
  unfold debounce_axis, set_limit_count, stop_axis.
  destruct (axis_flag b ls) eqn:Hb; simpl; [|reflexivity].
  destruct (limit_bit_set b limit_bits); destruct b; simpl in *;
    try match goal with
    | |- context [10 <=? ?c] => destruct (10 <=? c)
    end; simpl; rewrite ?Hb; reflexivity.
Qed.

Lemma debounce_axis_mirror (b : axis) (limit_bits : Z) (ls : locals) :
  step_lines_plain = true ->
  step_bits_mirror ls -> step_bits_mirror (debounce_axis b limit_bits ls).
Proof.
  intros Hw M a. pose proof (step_lines_plain_spec Hw) as W.
  destruct (W a) as (Ha & _ & _ & _ & Hinj). destruct (W b) as (Hb & _).
  pose proof (debounce_axis_view a b limit_bits ls) as V.
  rewrite debounce_axis_out_bits.
  apply (f_equal fst) in V. simpl in V.
  destruct (axis_eqb a b) eqn:Eab.
  - assert (a = b) as -> by (destruct a, b; simpl in Eab; congruence).
    destruct (axis_flag b ls) eqn:Fb; simpl.
    + destruct (axis_flag b (debounce_axis b limit_bits ls)) eqn:Fb'; simpl.
      * rewrite M. exact Fb.
      * rewrite u8_testbit, Z.lxor_spec, shiftl_1_testbit, M, Fb, Z.eqb_refl by lia.
        reflexivity.
    + rewrite M, Fb, V. reflexivity.
  - rewrite V.
    destruct (axis_flag b ls && negb (axis_flag b (debounce_axis b limit_bits ls))).
    + rewrite u8_testbit, Z.lxor_spec, shiftl_1_testbit, M by lia.
      replace (STEP_BIT b =? STEP_BIT a) with false.
      * replace (STEP_BIT a <? 8) with true by (symmetry; apply Z.ltb_lt; lia).
        rewrite xorb_false_r. apply andb_true_r.
      * symmetry. apply Z.eqb_neq. intros Heq. symmetry in Heq.
        rewrite (Hinj b Heq) in Eab. destruct b; discriminate.
    + apply M.
Qed.

Lemma debounce_all_mirror (limit_bits : Z) (ls : locals) :
  step_lines_plain = true ->
  step_bits_mirror ls -> step_bits_mirror (debounce_all limit_bits ls).
Proof.
  intros Hw M. unfold debounce_all. auto using debounce_axis_mirror.
Qed.

Lemma loop_mirror (n : nat) (x y z c rev : bool) (sd : Z) (pin : nat -> Z)
    (w0 : world) (ls : locals) (w : world) :
  step_lines_plain = true ->
  pulse_loop n rev sd pin (initial_locals x y z c rev) w0 = Running ls w ->
  step_bits_mirror ls.
Proof.
  intros Hw. revert ls w. induction n as [|n IH]; intros ls w H.
  - simpl in H. injection H as <- _. intros a. simpl.
    rewrite initial_out_bits_step by exact Hw. destruct a; reflexivity.
  - rewrite pulse_loop_last in H.
    destruct (pulse_loop n rev sd pin (initial_locals x y z c rev) w0)
      as [ls1 w1|w1]; [|discriminate].
    rewrite loop_iteration_eq in H. cbv zeta in H.
    destruct (any_axis _); [|discriminate]. injection H as <- _.
    apply debounce_all_mirror; [exact Hw|]. exact (IH ls1 w1 eq_refl).
Qed.

(** ** The log of a pass *)

Lemma skipn_length_app {A : Type} (l r : list A) :
  skipn (length l) (l ++ r) = r.
Proof. induction l as [|h l IH]; [reflexivity|exact IH]. Qed.

Lemma send_pulse_log (sd out : Z) (w : world) :
  log (send_pulse sd out w) =
  log w ++
  [EvPortWrite (u8 (Z.lor (Z.land (STEPPING_PORT w) (Z.lnot (STEP_MASK cfg)))
                          (Z.land out (STEP_MASK cfg))));
   EvDelay (pulse_microseconds settings);
   EvPinWrite (u8 (Z.land out (STEP_MASK cfg)));
   EvDelay sd].
Proof.
  unfold send_pulse, delay_us, write_STEPPING_PIN, write_STEPPING_PORT, emit.
  simpl. rewrite <- !app_assoc. reflexivity.
Qed.

Lemma send_pulse_port (sd out : Z) (w : world) :
  STEPPING_PORT (send_pulse sd out w) =
  Z.lxor (u8 (Z.lor (Z.land (STEPPING_PORT w) (Z.lnot (STEP_MASK cfg)))
                    (Z.land out (STEP_MASK cfg))))
         (u8 (Z.land out (STEP_MASK cfg))).
Proof. reflexivity. Qed.

Lemma iteration_events_eq (rev : bool) (sd : Z) (pin : nat -> Z)
    (ls : locals) (w : world) :
  iteration_events rev sd pin ls w =
  let ls' := debounce_all (process_limit_bits rev (u8 (pin (reads w)))) ls in
  if any_axis ls'
  then [EvPortWrite
          (u8 (Z.lor (Z.land (STEPPING_PORT w) (Z.lnot (STEP_MASK cfg)))
                     (Z.land (out_bits ls') (STEP_MASK cfg))));
        EvDelay (pulse_microseconds settings);
        EvPinWrite (u8 (Z.land (out_bits ls') (STEP_MASK cfg)));
        EvDelay sd]
  else [].
Proof.
  unfold iteration_events. rewrite loop_iteration_eq. cbv zeta.
  destruct (any_axis _); simpl world_of.
  - rewrite send_pulse_log. simpl. apply skipn_length_app.
  - simpl. rewrite <- (app_nil_r (log w)) at 2. apply skipn_length_app.
Qed.

Lemma lxor_u8_range (a b : Z) : 0 <= Z.lxor (u8 a) (u8 b) < 256.
Proof.
  replace (Z.lxor (u8 a) (u8 b)) with (u8 (Z.lxor a b)); [apply u8_range|].
  apply Z.bits_inj'. intros i Hi.
  rewrite Z.lxor_spec, !u8_testbit, Z.lxor_spec by lia.
  destruct (i <? 8); rewrite ?andb_true_r, ?andb_false_r; reflexivity.
Qed.

Lemma port_write_outside (p out mask : Z) :
  0 <= p < 256 ->
  Z.land (u8 (Z.lor (Z.land p (Z.lnot mask)) (Z.land out mask))) (Z.lnot mask)
  = Z.land p (Z.lnot mask).
Proof.
  intros Hp. apply Z.bits_inj'. intros i Hi.
  rewrite !Z.land_spec, u8_testbit, Z.lor_spec, !Z.land_spec, Z.lnot_spec by lia.
  destruct (Z.ltb_spec i 8) as [Hlt|Hge].
  - destruct (Z.testbit p i), (Z.testbit out i), (Z.testbit mask i); reflexivity.
  - rewrite (testbit_high_u8 p i Hp Hge).
    destruct (Z.testbit out i), (Z.testbit mask i); reflexivity.
Qed.

Lemma pin_write_outside (p out mask : Z) :
  Z.land (Z.lxor p (u8 (Z.land out mask))) (Z.lnot mask)
  = Z.land p (Z.lnot mask).
Proof.
  apply Z.bits_inj'. intros i Hi.
  rewrite !Z.land_spec, Z.lxor_spec, u8_testbit, Z.land_spec, Z.lnot_spec by lia.
  destruct (Z.testbit p i), (Z.testbit out i), (Z.testbit mask i), (i <? 8);
    reflexivity.
Qed.

Lemma writes_preserve_app (mask p : Z) (l r : list event) :
  writes_preserve mask p l ->
  writes_preserve mask (fold_left port_after l p) r ->
  writes_preserve mask p (l ++ r).
Proof.
  revert p. induction l as [|e l IH]; intros p Hl Hr; [exact Hr|].
  destruct Hl as [He Hl]. split; [exact He|]. apply IH; assumption.
Qed.

(** The accesses of one pulse touch the step bits only. *)
Lemma send_pulse_preserves (sd out p : Z) :
  0 <= p < 256 ->
  writes_preserve (STEP_MASK cfg) p
    [EvPortWrite (u8 (Z.lor (Z.land p (Z.lnot (STEP_MASK cfg)))
                            (Z.land out (STEP_MASK cfg))));
     EvDelay (pulse_microseconds settings);
     EvPinWrite (u8 (Z.land out (STEP_MASK cfg)));
     EvDelay sd].
Proof.
  intros Hp. simpl. repeat split.
  - apply port_write_outside. exact Hp.
  - apply pin_write_outside.
Qed.

Lemma loop_log_preserves (n : nat) (rev : bool) (sd : Z) (pin : nat -> Z)
    (ls : locals) (w : world) :
  0 <= STEPPING_PORT w < 256 ->
  exists evs,
    log (world_of (pulse_loop n rev sd pin ls w)) = log w ++ evs /\
    writes_preserve (STEP_MASK cfg) (STEPPING_PORT w) evs /\
    STEPPING_PORT (world_of (pulse_loop n rev sd pin ls w))
    = fold_left port_after evs (STEPPING_PORT w).
Proof.
  revert ls w. induction n as [|n IH]; intros ls w Hp.
  - exists []. simpl. rewrite app_nil_r. auto.
  - simpl pulse_loop. rewrite loop_iteration_eq. cbv zeta.
    destruct (any_axis _).
    + set (ls' := debounce_all _ ls).
      set (w1 := snd (read_LIMIT_PIN pin w)).
      destruct (IH ls' (send_pulse sd (out_bits ls') w1)) as (evs & Hlog & Hpres & Hport).
      { rewrite send_pulse_port. apply lxor_u8_range. }
      rewrite send_pulse_log in Hlog. rewrite send_pulse_port in Hpres, Hport.
      change (STEPPING_PORT w1) with (STEPPING_PORT w) in *.
      change (log w1) with (log w) in *.
      eexists. split; [|split].
      * rewrite Hlog, <- app_assoc. reflexivity.
      * apply writes_preserve_app; [apply send_pulse_preserves; exact Hp|].
        exact Hpres.
      * rewrite Hport, fold_left_app. reflexivity.
    + exists []. simpl. rewrite app_nil_r. auto.
Qed.

Lemma pulse_bits_mirror (ls : locals) (p : Z) (a : axis) :
  step_lines_plain = true ->
  step_bits_mirror ls ->
  Z.testbit (u8 (Z.lor (Z.land p (Z.lnot (STEP_MASK cfg)))
                       (Z.land (out_bits ls) (STEP_MASK cfg)))) (STEP_BIT a)
    = axis_flag a ls /\
  Z.testbit (u8 (Z.land (out_bits ls) (STEP_MASK cfg))) (STEP_BIT a)
    = axis_flag a ls.
Proof.
  intros Hw M. destruct (step_lines_plain_spec Hw a) as (Ha & Hm & _).
  rewrite !u8_testbit, Z.lor_spec, !Z.land_spec, Z.lnot_spec, Hm, M by lia.
  replace (STEP_BIT a <? 8) with true by (symmetry; apply Z.ltb_lt; lia).
  simpl. rewrite !andb_true_r, andb_false_r. auto.
Qed.

Lemma idle_line_no_pulses (bit : Z) (high : bool) (evs : list event) :
  Forall (line_idle bit) evs -> step_pulses bit high evs = 0%nat.
Proof.
  intros H. revert high. induction H as [|e evs He _ IH]; intros high;
    [reflexivity|].
  destruct e; simpl in *; rewrite ?He; auto.
Qed.

(** With plain step lines, an axis whose flag is clear (it was not
    requested, or it has been stopped) gets no pulse in any later
    iteration of the pass. *)
Lemma inactive_axis_line_idle (n : nat) (rev : bool) (sd : Z)
    (pin : nat -> Z) (ls : locals) (w : world) (a : axis) :
  step_lines_plain = true ->
  step_bits_mirror ls ->
  axis_flag a ls = false ->
  exists evs,
    log (world_of (pulse_loop n rev sd pin ls w)) = log w ++ evs /\
    Forall (line_idle (STEP_BIT a)) evs.
Proof.
  intros Hw. revert ls w. induction n as [|n IH]; intros ls w M Hoff.
  - exists []. simpl. rewrite app_nil_r. auto.
  - simpl pulse_loop. rewrite loop_iteration_eq. cbv zeta.
    destruct (any_axis _).
    + set (ls' := debounce_all _ ls).
      set (w1 := snd (read_LIMIT_PIN pin w)).
      assert (M' : step_bits_mirror ls') by (apply debounce_all_mirror; assumption).
      assert (Hoff' : axis_flag a ls' = false).
      { subst ls'. rewrite debounce_all_flag, Hoff. reflexivity. }
      destruct (IH ls' (send_pulse sd (out_bits ls') w1) M' Hoff')
        as (evs & Hlog & Hidle).
      rewrite send_pulse_log in Hlog.
      change (log w1) with (log w) in Hlog.
      eexists. split; [rewrite Hlog, <- app_assoc; reflexivity|].
      destruct (pulse_bits_mirror ls' (STEPPING_PORT w1) a Hw M') as [Hv Hb].
      rewrite Hoff' in Hv, Hb.
      repeat (constructor; [simpl; auto|]). exact Hidle.
    + exists []. simpl. rewrite app_nil_r. auto.
Qed.

Lemma plain_lines_inactive_axis_never_pulsed (n m : nat) (x y z c rev : bool)
    (sd : Z) (pin : nat -> Z) (w0 : world) (ls : locals) (w : world)
    (a : axis) (high : bool) :
  step_lines_plain = true ->
  pulse_loop n rev sd pin (initial_locals x y z c rev) w0 = Running ls w ->
  axis_flag a ls = false ->
  exists evs,
    log (world_of (pulse_loop m rev sd pin ls w)) = log w ++ evs /\
    Forall (line_idle (STEP_BIT a)) evs /\
    step_pulses (STEP_BIT a) high evs = 0%nat.
Proof.
  intros Hw Hrun Hoff.
  destruct (inactive_axis_line_idle m rev sd pin ls w a Hw
              (loop_mirror _ _ _ _ _ _ _ _ _ _ _ Hw Hrun) Hoff)
    as (evs & Hlog & Hidle).
  exists evs. auto using idle_line_no_pulses.
Qed.

(** ** Properties of the limit byte, the direction bits and the pulses *)

(** C6. On a reverse pass the sampled limit byte is XORed with [LIMIT_MASK]
    and the result with [settings.invert_mask_limit]; on a forward pass
    only the latter is applied. Bit by bit: the bit that a per-axis block
    tests is the sampled bit, flipped by the mask bit on a reverse pass,
    then flipped by the invert bit. The blocks of an iteration see the
    byte only after this processing, and so does the test that ends the
    loop. *)
Theorem limit_byte_reversed_then_inverted (rev : bool) (raw : Z) (a : axis) :
  0 <= LIMIT_BIT a < 8 ->
  process_limit_bits true raw =
    u8 (Z.lxor (u8 (Z.lxor raw (LIMIT_MASK cfg))) (invert_mask_limit settings)) /\
  process_limit_bits false raw = u8 (Z.lxor raw (invert_mask_limit settings)) /\
  limit_bit_set a (process_limit_bits rev raw) =
    xorb (xorb (Z.testbit raw (LIMIT_BIT a))
               (rev && Z.testbit (LIMIT_MASK cfg) (LIMIT_BIT a)))
         (Z.testbit (invert_mask_limit settings) (LIMIT_BIT a)) /\
  (forall sd pin ls w ls' w',
     loop_iteration rev sd pin ls w = Running ls' w' ->
     ls' = debounce_all (process_limit_bits rev (u8 (pin (reads w)))) ls) /\
  (forall sd pin ls w w',
     loop_iteration rev sd pin ls w = Returned w' <->
     any_axis (debounce_all (process_limit_bits rev (u8 (pin (reads w)))) ls)
       = false /\
     w' = snd (read_LIMIT_PIN pin w)).
Proof.
  intros Hb. split; [reflexivity|]. split; [reflexivity|]. split; [|split].
  - rewrite limit_bit_set_testbit by lia. unfold process_limit_bits.
    cbv zeta. rewrite (xor_mask_testbit true), xor_mask_testbit by exact Hb.
    reflexivity.
  - intros sd pin ls w ls' w' H. rewrite loop_iteration_eq in H.
    cbv zeta in H. destruct (any_axis _); [|discriminate].
    injection H as <- _. reflexivity.
  - intros sd pin ls w w'. rewrite loop_iteration_eq. cbv zeta.
    destruct (any_axis _); split.
    + discriminate.
    + intros [Hf _]. discriminate Hf.
    + intros [= <-]. auto.
    + intros [_ ->]. reflexivity.
Qed.

(** C5. The direction bits that [homing_cycle] puts on the stepping port
    are those of DIRECTION_MASK xor (DIRECTION_MASK if reversed) xor
    invert_mask_stepdir, whatever axes are requested; the write leaves the
    other bits of the port as they were, it is the first access of the
    pass, and every later access of the pass leaves all bits outside
    STEP_MASK unchanged. *)
Theorem direction_bits_written_once (x y z c rev : bool) (us : Z)
    (pin : nat -> Z) (w : world) (n : nat) :
  let w1 := set_direction_pins (initial_out_bits x y z c rev) w in
  let s := pulse_loop n rev (step_delay_of us) pin
             (initial_locals x y z c rev) w1 in
  Z.land (STEPPING_PORT w1) (DIRECTION_MASK cfg) =
    u8 (Z.land (Z.lxor (Z.lxor (DIRECTION_MASK cfg)
                               (if rev then DIRECTION_MASK cfg else 0))
                       (invert_mask_stepdir settings))
               (DIRECTION_MASK cfg)) /\
  Z.land (STEPPING_PORT w1) (Z.lnot (DIRECTION_MASK cfg)) =
    Z.land (u8 (STEPPING_PORT w)) (Z.lnot (DIRECTION_MASK cfg)) /\
  (exists evs,
     log (world_of s) = log w ++ EvPortWrite (STEPPING_PORT w1) :: evs /\
     writes_preserve (STEP_MASK cfg) (STEPPING_PORT w1) evs /\
     STEPPING_PORT (world_of s) = fold_left port_after evs (STEPPING_PORT w1)) /\
  homing_cycle n x y z c rev us pin w =
    match s with Returned w' => Some w' | Running _ _ => None end.
Proof.
  intros w1 s. split; [|split; [|split]].
  - apply Z.bits_inj'. intros i Hi. subst w1. simpl STEPPING_PORT.
    rewrite Z.land_spec, !u8_testbit, Z.lor_spec, !Z.land_spec, !Z.lxor_spec,
      Z.lnot_spec by lia.
    destruct (Z.testbit (DIRECTION_MASK cfg) i) eqn:Hd;
      [|rewrite !andb_false_r; reflexivity].
    destruct (Z.ltb_spec i 8) as [Hlt|Hge];
      [|rewrite !andb_false_r; reflexivity].
    rewrite initial_out_bits_direction by (auto; lia).
    simpl. rewrite !andb_true_r, andb_false_r. simpl.
    destruct rev; simpl; rewrite ?Hd, ?Z.bits_0; reflexivity.
  - apply Z.bits_inj'. intros i Hi. subst w1. simpl STEPPING_PORT.
    rewrite !Z.land_spec, !u8_testbit, Z.lor_spec, !Z.land_spec,
      Z.lnot_spec by lia.
    destruct (Z.testbit (STEPPING_PORT w) i),
      (Z.testbit (initial_out_bits x y z c rev) i),
      (Z.testbit (DIRECTION_MASK cfg) i), (i <? 8); reflexivity.
  - destruct (loop_log_preserves n rev (step_delay_of us) pin
                (initial_locals x y z c rev) w1) as (evs & Hlog & Hpres & Hport).
    { subst w1. simpl. apply u8_range. }
    exists evs. fold s in Hlog, Hport. rewrite Hlog.
    split; [|auto]. subst w1. simpl. rewrite <- app_assoc. reflexivity.
  - reflexivity.
Qed.

(** C3 (as the code has it, for step lines that are not inverted). In an
    iteration after whose debounce processing some axis is still active,
    the accesses are one masked port write, the hold of
    [pulse_microseconds], one toggle of the same step bits and the hold of
    [step_delay]; the write raises and the toggle ends the step line of
    exactly the axes still active after the debounce processing: one pulse
    for each of them, none for any other axis. In the iteration in which
    the last active axis stops the loop returns without any access. *)
Theorem pulse_for_each_remaining_axis (x y z c rev : bool) (sd : Z)
    (pin : nat -> Z) (w0 : world) (n : nat) (ls : locals) (w : world) :
  step_lines_plain = true ->
  pulse_loop n rev sd pin (initial_locals x y z c rev) w0 = Running ls w ->
  let ls' := debounce_all (process_limit_bits rev (u8 (pin (reads w)))) ls in
  let evs := iteration_events rev sd pin ls w in
  (any_axis ls' = true ->
     (exists w', loop_iteration rev sd pin ls w = Running ls' w') /\
     (exists v b,
        evs = [EvPortWrite v; EvDelay (pulse_microseconds settings);
               EvPinWrite b; EvDelay sd] /\
        v = u8 (Z.lor (Z.land (STEPPING_PORT w) (Z.lnot (STEP_MASK cfg)))
                      (Z.land (out_bits ls') (STEP_MASK cfg))) /\
        b = u8 (Z.land (out_bits ls') (STEP_MASK cfg)) /\
        forall a, Z.testbit v (STEP_BIT a) = axis_flag a ls' /\
                  Z.testbit b (STEP_BIT a) = axis_flag a ls') /\
     (forall a high,
        step_pulses (STEP_BIT a) high evs
        = if axis_flag a ls' then 1%nat else 0%nat)) /\
  (any_axis ls' = false ->
     (exists w', loop_iteration rev sd pin ls w = Returned w') /\ evs = []).
Proof.
  intros Hw Hrun ls' evs.
  assert (M : step_bits_mirror ls').
  { apply debounce_all_mirror; [exact Hw|].
    exact (loop_mirror _ _ _ _ _ _ _ _ _ _ _ Hw Hrun). }
  pose proof (fun a => pulse_bits_mirror ls' (STEPPING_PORT w) a Hw M) as Hbits.
  subst evs. rewrite iteration_events_eq. fold ls'. cbv zeta.
  rewrite loop_iteration_eq. fold ls'. cbv zeta.
  split; intros Hany; rewrite Hany.
  - split; [eauto|]. split.
    + do 2 eexists. repeat split; apply Hbits.
    + intros a high. destruct (Hbits a) as [Hv Hb]. simpl.
      rewrite Hv, Hb. destruct (axis_flag a ls'); reflexivity.
  - split; [eauto|reflexivity].
Qed.

(** ** The sequencer *)



(** C1 (as the code has it). After a run of [limits_go_home] that returns,
    every coordinate of the machine position is 0: those of the axes that
    were homed and those of the axes that were not. *)
Theorem limits_go_home_zeroes_every_axis (fuel : nat) (pin : nat -> Z)
    (w w' : world) :
  limits_go_home fuel pin w = Some w' ->
  forall a, sys_position w' a = 0.
Proof.
  unfold limits_go_home. cbv zeta. intros H a.
  destruct (approach_limit_switch fuel false false (HOME_Z cfg) false pin
              (st_enable (plan_synchronize w))) as [w1|]; [|discriminate].
  destruct (approach_limit_switch fuel (HOME_X cfg) (HOME_Y cfg) false
              (HOME_C cfg) pin w1) as [w2|]; [|discriminate].
  destruct (leave_limit_switch fuel (HOME_X cfg) (HOME_Y cfg) (HOME_Z cfg)
              (HOME_C cfg) pin w2) as [w3|]; [|discriminate].
  injection H as <-. reflexivity.
Qed.

(** ** [limits_init] *)

(** X1. [limits_init] makes exactly the pins of LIMIT_MASK inputs and, when
    LIMIT_PULLUP is defined, switches on the pull-ups of exactly those
    pins; without LIMIT_PULLUP the port latch is not written. Calling it
    again changes nothing. *)
Theorem limits_init_configures_limit_pins (pullup : bool) (r : limit_port)
    (i : Z) :
  0 <= i < 8 ->
  Z.testbit (LIMIT_DDR (limits_init pullup r)) i =
    Z.testbit (LIMIT_DDR r) i && negb (Z.testbit (LIMIT_MASK cfg) i) /\
  Z.testbit (LIMIT_PORT (limits_init pullup r)) i =
    Z.testbit (LIMIT_PORT r) i || (pullup && Z.testbit (LIMIT_MASK cfg) i) /\
  LIMIT_PORT (limits_init false r) = LIMIT_PORT r /\
  limits_init pullup (limits_init pullup r) = limits_init pullup r.
Proof.
  intros Hi. unfold limits_init. simpl.
  assert (Hlt : (i <? 8) = true) by (apply Z.ltb_lt; lia).
  split; [|split; [|split]].
  - rewrite u8_testbit, Z.land_spec, Z.lnot_spec, Hlt by lia.
    apply andb_true_r.
  - destruct pullup; simpl.
    + rewrite u8_testbit, Z.lor_spec, Hlt by lia. apply andb_true_r.
    + symmetry. apply orb_false_r.
  - reflexivity.
  - f_equal.
    + apply Z.bits_inj'. intros j Hj.
      rewrite !u8_testbit, !Z.land_spec, u8_testbit, Z.land_spec,
        Z.lnot_spec by lia.
      destruct (Z.testbit (LIMIT_DDR r) j), (Z.testbit (LIMIT_MASK cfg) j),
        (j <? 8); reflexivity.
    + destruct pullup; [|reflexivity].
      apply Z.bits_inj'. intros j Hj.
      rewrite !u8_testbit, !Z.lor_spec, u8_testbit, Z.lor_spec by lia.
      destruct (Z.testbit (LIMIT_PORT r) j), (Z.testbit (LIMIT_MASK cfg) j),
        (j <? 8); reflexivity.
Qed.

(** ** The shape of a pass *)

Lemma homing_cycle_last_iteration (fuel : nat) (x y z c rev : bool) (us : Z)
    (pin : nat -> Z) (w w' : world) :
  homing_cycle fuel x y z c rev us pin w = Some w' ->
  exists n ls wn,
    (n < fuel)%nat /\
    pulse_loop n rev (step_delay_of us) pin (initial_locals x y z c rev)
      (set_direction_pins (initial_out_bits x y z c rev) w) = Running ls wn /\
    loop_iteration rev (step_delay_of us) pin ls wn = Returned w'.
Proof.
  unfold homing_cycle. cbv zeta. simpl out_bits.
  set (w1 := set_direction_pins _ w). set (sd := step_delay_of us).
  induction fuel as [|fuel IH]; intros H; [discriminate|].
  rewrite pulse_loop_last in H.
  destruct (pulse_loop fuel rev sd pin (initial_locals x y z c rev) w1)
    as [ls wn|w2] eqn:E.
  - destruct (loop_iteration rev sd pin ls wn) as [ls3 w3|w3] eqn:E3;
      [discriminate|].
    injection H as <-. exists fuel, ls, wn. auto.
  - destruct (IH H) as (n & ls & wn & Hn & Hr & Hi).
    exists n, ls, wn. auto.
Qed.

Lemma loop_iteration_returned (rev : bool) (sd : Z) (pin : nat -> Z)
    (ls : locals) (w w' : world) :
  loop_iteration rev sd pin ls w = Returned w' ->
  STEPPING_PORT w' = STEPPING_PORT w /\ sys_position w' = sys_position w /\
  reads w' = S (reads w) /\ log w' = log w.
Proof.
  rewrite loop_iteration_eq. cbv zeta.
  destruct (any_axis _); [discriminate|]. intros [= <-]. auto.
Qed.

Lemma send_pulse_port_low (out p : Z) :
  Z.lxor (u8 (Z.lor (Z.land p (Z.lnot (STEP_MASK cfg)))
                    (Z.land out (STEP_MASK cfg))))
         (u8 (Z.land out (STEP_MASK cfg)))
  = u8 (Z.land p (Z.lnot (STEP_MASK cfg))).
Proof.
  apply Z.bits_inj'. intros i Hi.
  rewrite Z.lxor_spec, !u8_testbit, Z.lor_spec, !Z.land_spec, Z.lnot_spec by lia.
  destruct (Z.testbit p i), (Z.testbit out i), (Z.testbit (STEP_MASK cfg) i),
    (i <? 8); reflexivity.
Qed.

Lemma u8_land_lnot_idem (p m : Z) :
  u8 (Z.land (u8 (Z.land p (Z.lnot m))) (Z.lnot m)) = u8 (Z.land p (Z.lnot m)).
Proof.
  apply Z.bits_inj'. intros i Hi.
  rewrite !u8_testbit, !Z.land_spec, u8_testbit, Z.land_spec, Z.lnot_spec by lia.
  destruct (Z.testbit p i), (Z.testbit m i), (i <? 8); reflexivity.
Qed.

(** After [n] pulsing iterations: [n] readings, four accesses each, the
    position untouched, and (once a pulse was sent) every bit of STEP_MASK
    low on the port. *)
Lemma loop_running_shape (n : nat) (rev : bool) (sd : Z) (pin : nat -> Z)
    (ls0 : locals) (w0 : world) (ls : locals) (w : world) :
  pulse_loop n rev sd pin ls0 w0 = Running ls w ->
  length (log w) = (length (log w0) + 4 * n)%nat /\
  sys_position w = sys_position w0 /\
  STEPPING_PORT w =
    match n with
    | O => STEPPING_PORT w0
    | S _ => u8 (Z.land (STEPPING_PORT w0) (Z.lnot (STEP_MASK cfg)))
    end.
Proof.
  revert ls w. induction n as [|n IH]; intros ls w H.
  - simpl in H. injection H as _ <-. repeat split. lia.
  - rewrite pulse_loop_last in H.
    destruct (pulse_loop n rev sd pin ls0 w0) as [ls1 w1|w1]; [|discriminate].
    destruct (IH ls1 w1 eq_refl) as (Hlen & Hpos & Hport).
    rewrite loop_iteration_eq in H. cbv zeta in H.
    destruct (any_axis _); [|discriminate]. injection H as _ <-.
    rewrite send_pulse_log, send_pulse_port, send_pulse_position.
    rewrite send_pulse_port_low. simpl log. simpl sys_position.
    simpl STEPPING_PORT. rewrite length_app, Hlen, Hpos, Hport. simpl length.
    repeat split; [lia|].
    destruct n; [reflexivity|apply u8_land_lnot_idem].
Qed.

Lemma running_prefix (n m : nat) (rev : bool) (sd : Z) (pin : nat -> Z)
    (ls0 : locals) (w0 : world) (ls : locals) (w : world) :
  pulse_loop n rev sd pin ls0 w0 = Running ls w ->
  (m <= n)%nat ->
  exists ls' w', pulse_loop m rev sd pin ls0 w0 = Running ls' w'.
Proof.
  intros H Hm.
  destruct (pulse_loop m rev sd pin ls0 w0) as [ls' w'|w'] eqn:E; [eauto|].
  apply (pulse_loop_returned_more m (n - m)) in E.
  replace (m + (n - m))%nat with n in E by lia. congruence.
Qed.

Lemma running_any_axis (n : nat) (rev : bool) (sd : Z) (pin : nat -> Z)
    (ls0 : locals) (w0 : world) (ls : locals) (w : world) :
  pulse_loop (S n) rev sd pin ls0 w0 = Running ls w -> any_axis ls = true.
Proof.
  rewrite pulse_loop_last.
  destruct (pulse_loop n rev sd pin ls0 w0) as [ls1 w1|w1]; [|discriminate].
  rewrite loop_iteration_eq. cbv zeta.
  destruct (any_axis _) eqn:A; [|discriminate].
  intros [= <- _]. exact A.
Qed.

(** X2. A pass that returns has taken N >= 1 readings of LIMIT_PIN and
    made 1 + 4 (N - 1) output accesses: the direction write, then a port
    write, a hold, a toggle and a hold for each reading but the last; it
    never writes the machine position. It returns at its first reading
    exactly when no axis is requested, and not before the tenth
    otherwise. *)
Theorem homing_cycle_shape (fuel : nat) (x y z c rev : bool) (us : Z)
    (pin : nat -> Z) (w w' : world) :
  homing_cycle fuel x y z c rev us pin w = Some w' ->
  exists N evs,
    (1 <= N <= fuel)%nat /\
    reads w' = (reads w + N)%nat /\
    log w' = log w ++
      EvPortWrite
        (STEPPING_PORT (set_direction_pins (initial_out_bits x y z c rev) w))
      :: evs /\
    length evs = (4 * (N - 1))%nat /\
    sys_position w' = sys_position w /\
    (N = 1%nat <-> forall a, requested x y z c a = false) /\
    ((exists a, requested x y z c a = true) -> (10 <= N)%nat).
Proof.
  intros H.
  destruct (homing_cycle_last_iteration _ _ _ _ _ _ _ _ _ _ H)
    as (n & ls & wn & Hn & Hrun & Hret).
  set (w1 := set_direction_pins (initial_out_bits x y z c rev) w) in *.
  set (sd := step_delay_of us) in *.
  destruct (loop_iteration_returned _ _ _ _ _ _ Hret)
    as (_ & Hpos & Hreads & Hlog).
  destruct (loop_running_shape _ _ _ _ _ _ _ _ Hrun) as (Hlen & Hpos1 & _).
  destruct (loop_log_preserves n rev sd pin (initial_locals x y z c rev) w1)
    as (evs & Hevs & _).
  { subst w1. simpl. apply u8_range. }
  rewrite Hrun in Hevs. simpl in Hevs.
  assert (Hstop : forall a,
    fst (track rev pin (reads w1) (requested x y z c a) a (S n)) = false).
  { apply (loop_returned_all_stopped (S n) x y z c rev sd pin w1 w').
    rewrite pulse_loop_last, Hrun. exact Hret. }
  exists (S n), evs. split; [lia|]. split.
  { rewrite Hreads, (loop_reads _ _ _ _ _ _ _ _ Hrun). subst w1. simpl. lia. }
  split.
  { rewrite Hlog, Hevs. subst w1. simpl. rewrite <- app_assoc. reflexivity. }
  split.
  { rewrite Hevs in Hlen. subst w1. simpl in Hlen.
    rewrite !length_app in Hlen. simpl in Hlen. lia. }
  split; [rewrite Hpos, Hpos1; reflexivity|]. split.
  - split.
    + intros HN a. assert (n = O) as -> by lia.
      specialize (Hstop a). apply track_stopped_iff in Hstop.
      destruct Hstop as [Hreq|(k & Hk & _)]; [exact Hreq|lia].
    + intros Hnone. destruct n as [|n]; [reflexivity|].
      pose proof (running_any_axis _ _ _ _ _ _ _ _ Hrun) as Hany.
      apply any_axis_true in Hany. destruct Hany as [a Ha].
      pose proof (loop_track _ _ _ _ _ _ _ _ _ _ _ a Hrun) as Htr.
      rewrite Hnone, track_unrequested, Ha in Htr. discriminate.
  - intros (a & Hreq). specialize (Hstop a).
    apply track_stopped_iff in Hstop.
    destruct Hstop as [Hno|(k & Hk & _)]; [congruence|lia].
Qed.

(** X3. A pass returns at the first iteration by which every requested
    axis has completed a run of ten "not triggered" readings: with N the
    number of readings it took, each requested axis has such a run among
    the first N, and for every M with 1 <= M < N some requested axis has
    none among the first M. *)
Theorem homing_cycle_returns_at_first_completion (fuel : nat)
    (x y z c rev : bool) (us : Z) (pin : nat -> Z) (w w' : world) :
  homing_cycle fuel x y z c rev us pin w = Some w' ->
  let N := (reads w' - reads w)%nat in
  (forall a, requested x y z c a = true ->
     exists k, (k + 10 <= N)%nat /\ quiet_run rev pin (reads w) a k) /\
  (forall M, (1 <= M < N)%nat ->
     exists a, requested x y z c a = true /\
       forall k, (k + 10 <= M)%nat -> ~ quiet_run rev pin (reads w) a k).
Proof.
  intros H N.
  destruct (homing_cycle_last_iteration _ _ _ _ _ _ _ _ _ _ H)
    as (n & ls & wn & Hn & Hrun & Hret).
  set (w1 := set_direction_pins (initial_out_bits x y z c rev) w) in *.
  set (sd := step_delay_of us) in *.
  destruct (loop_iteration_returned _ _ _ _ _ _ Hret) as (_ & _ & Hreads & _).
  assert (HN : N = S n).
  { subst N. rewrite Hreads, (loop_reads _ _ _ _ _ _ _ _ Hrun).
    change (reads w1) with (reads w). lia. }
  change (reads w) with (reads w1). rewrite HN. split.
  - intros a Hreq.
    assert (Hstop :
      fst (track rev pin (reads w1) (requested x y z c a) a (S n)) = false).
    { apply (loop_returned_all_stopped (S n) x y z c rev sd pin w1 w').
      rewrite pulse_loop_last, Hrun. exact Hret. }
    apply track_stopped_iff in Hstop. rewrite Hreq in Hstop.
    destruct Hstop as [|Hk]; [discriminate|exact Hk].
  - intros M HM.
    destruct (running_prefix n M _ _ _ _ _ _ _ Hrun ltac:(lia))
      as (lsM & wM & HrunM).
    destruct M as [|M]; [lia|].
    pose proof (running_any_axis _ _ _ _ _ _ _ _ HrunM) as Hany.
    apply any_axis_true in Hany. destruct Hany as [a Ha].
    pose proof (loop_track _ _ _ _ _ _ _ _ _ _ _ a HrunM) as Htr.
    rewrite Ha in Htr. exists a.
    destruct (requested x y z c a) eqn:Hreq; rewrite ?Hreq in Htr.
    + split; [reflexivity|]. intros k Hk Hq.
      assert (Hf : fst (track rev pin (reads w1) true a (S M)) = false).
      { apply track_stopped_iff. right. exists k. auto. }
      rewrite <- Htr in Hf. discriminate.
    + rewrite track_unrequested in Htr. discriminate.
Qed.

(** X4. The debounce state of an axis depends on nothing but the pass
    direction and the readings of its own limit bit: two passes over the
    same readings, with other axes requested or not, other hold times and
    another port state, give the axis the same flag and the same counter
    after the same number of iterations. *)
Theorem axis_debounce_independent (n : nat) (rev : bool) (pin : nat -> Z)
    (a : axis) (x y z c x' y' z' c' : bool) (sd sd' : Z)
    (w0 w0' : world) (ls ls' : locals) (w w' : world) :
  reads w0 = reads w0' ->
  requested x y z c a = requested x' y' z' c' a ->
  pulse_loop n rev sd pin (initial_locals x y z c rev) w0 = Running ls w ->
  pulse_loop n rev sd' pin (initial_locals x' y' z' c' rev) w0' = Running ls' w' ->
  axis_flag a ls = axis_flag a ls' /\ limit_count a ls = limit_count a ls'.
Proof.
  intros Hreads Hreq H H'.
  pose proof (loop_track _ _ _ _ _ _ _ _ _ _ _ a H) as T.
  pose proof (loop_track _ _ _ _ _ _ _ _ _ _ _ a H') as T'.
  rewrite Hreads, Hreq, <- T' in T. injection T as -> ->. auto.
Qed.

(** ** How many pulses an axis gets *)

Lemma step_pulses_app_port (bit : Z) (high high' : bool) (l r : list event)
    (v : Z) :
  step_pulses bit high (l ++ EvPortWrite v :: r) =
  (step_pulses bit high l + step_pulses bit high' (EvPortWrite v :: r))%nat.
Proof.
  revert high. induction l as [|e l IH]; intros high; [reflexivity|].
  destruct e; simpl; rewrite ?IH; try reflexivity.
  destruct (Z.testbit v0 bit); rewrite ?IH; simpl; lia.
Qed.

Lemma active_iterations_S (rev : bool) (pin : nat -> Z) (t0 : nat)
    (req : bool) (a : axis) (m : nat) :
  active_iterations rev pin t0 req a (S m) =
  (active_iterations rev pin t0 req a m +
   if fst (track rev pin t0 req a (S m)) then 1 else 0)%nat.
Proof. reflexivity. Qed.

Lemma loop_pulse_count (n : nat) (x y z c rev : bool) (sd : Z)
    (pin : nat -> Z) (w0 : world) (ls : locals) (w : world) (a : axis) :
  step_lines_plain = true ->
  pulse_loop n rev sd pin (initial_locals x y z c rev) w0 = Running ls w ->
  exists evs,
    log w = log w0 ++ evs /\
    forall high,
      step_pulses (STEP_BIT a) high evs =
      active_iterations rev pin (reads w0) (requested x y z c a) a n.
Proof.
  intros Hw. revert ls w. induction n as [|n IH]; intros ls w H.
  - simpl in H. injection H as _ <-. exists []. rewrite app_nil_r. auto.
  - pose proof (loop_track _ _ _ _ _ _ _ _ _ _ _ a H) as Htr.
    pose proof (loop_mirror _ _ _ _ _ _ _ _ _ _ _ Hw H) as M.
    rewrite pulse_loop_last in H.
    destruct (pulse_loop n rev sd pin (initial_locals x y z c rev) w0)
      as [ls1 w1|w1]; [|discriminate].
    destruct (IH ls1 w1 eq_refl) as (evs & Hlog & Hcount).
    rewrite loop_iteration_eq in H. cbv zeta in H.
    destruct (any_axis _); [|discriminate]. injection H as Hls <-.
    rewrite Hls in *. rewrite send_pulse_log. simpl log. rewrite Hlog.
    eexists. split; [rewrite <- app_assoc; reflexivity|].
    intros high. rewrite (step_pulses_app_port _ _ false), Hcount.
    destruct (pulse_bits_mirror ls (STEPPING_PORT w1) a Hw M) as [Hv Hb].
    rewrite active_iterations_S, <- Htr. simpl. rewrite Hv, Hb.
    destruct (axis_flag a ls); reflexivity.
Qed.

Lemma active_iterations_first_run (rev : bool) (pin : nat -> Z) (t0 : nat)
    (a : axis) (k n : nat) :
  first_quiet_run rev pin t0 a k ->
  active_iterations rev pin t0 true a n = Nat.min n (k + 9).
Proof.
  intros [Hrun Hfirst].
  assert (Hflag : forall m,
    fst (track rev pin t0 true a m) = negb (k + 10 <=? m)%nat).
  { intros m. destruct (Nat.leb_spec (k + 10) m) as [Hle|Hlt]; simpl.
    - apply track_stopped_iff. right. exists k. auto.
    - destruct (fst (track rev pin t0 true a m)) eqn:F; [reflexivity|].
      apply track_stopped_iff in F.
      destruct F as [F|(j & Hj & Hq)]; [discriminate|].
      destruct (Hfirst j ltac:(lia) Hq). }
  induction n as [|n IH]; [reflexivity|].
  rewrite active_iterations_S, IH, Hflag.
  destruct (Nat.leb_spec (k + 10) (S n)); cbv beta iota delta [negb]; lia.
Qed.

(** X5. With step lines that are not inverted, a requested axis whose
    first run of ten "not triggered" readings starts at iteration k
    receives exactly k + 9 step pulses in a pass that returns: one per
    iteration until the one that completes the run, whatever the other
    axes do. An axis that is not requested receives none. *)
Theorem axis_pulse_count (fuel : nat) (x y z c rev : bool) (us : Z)
    (pin : nat -> Z) (w w' : world) (a : axis) :
  step_lines_plain = true ->
  homing_cycle fuel x y z c rev us pin w = Some w' ->
  exists evs,
    log w' = log w ++
      EvPortWrite
        (STEPPING_PORT (set_direction_pins (initial_out_bits x y z c rev) w))
      :: evs /\
    (requested x y z c a = false ->
       forall high, step_pulses (STEP_BIT a) high evs = 0%nat) /\
    (requested x y z c a = true ->
       forall k, first_quiet_run rev pin (reads w) a k ->
       forall high, step_pulses (STEP_BIT a) high evs = (k + 9)%nat).
Proof.
  intros Hw H.
  destruct (homing_cycle_last_iteration _ _ _ _ _ _ _ _ _ _ H)
    as (n & ls & wn & Hn & Hrun & Hret).
  set (w1 := set_direction_pins (initial_out_bits x y z c rev) w) in *.
  set (sd := step_delay_of us) in *.
  destruct (loop_iteration_returned _ _ _ _ _ _ Hret) as (_ & _ & _ & Hlog).
  destruct (loop_pulse_count _ _ _ _ _ _ _ _ _ _ _ a Hw Hrun)
    as (evs & Hevs & Hcount).
  change (reads w1) with (reads w) in Hcount.
  exists evs. split.
  { rewrite Hlog, Hevs. subst w1. simpl. rewrite <- app_assoc. reflexivity. }
  split.
  - intros Hreq high. rewrite Hcount, Hreq.
    clear. induction n as [|n IH]; [reflexivity|].
    rewrite active_iterations_S, IH, track_unrequested. reflexivity.
  - intros Hreq k Hfirst high.
    rewrite Hcount, Hreq, (active_iterations_first_run _ _ _ _ k n Hfirst).
    assert (Hstop : fst (track rev pin (reads w1) (requested x y z c a) a (S n))
                    = false).
    { apply (loop_returned_all_stopped (S n) x y z c rev sd pin w1 w').
      rewrite pulse_loop_last, Hrun. exact Hret. }
    rewrite Hreq in Hstop. apply track_stopped_iff in Hstop.
    destruct Hstop as [|(j & Hj & Hq)]; [discriminate|].
    destruct Hfirst as [_ Hfirst].
    assert (k <= j)%nat.
    { destruct (Nat.le_gt_cases k j) as [|Hlt]; [assumption|].
      destruct (Hfirst j Hlt Hq). }
    lia.
Qed.

(** ** The stepping port after a pass *)

Lemma direction_pins_value (x y z c rev : bool) (w : world) :
  Z.land (STEPPING_PORT (set_direction_pins (initial_out_bits x y z c rev) w))
         (DIRECTION_MASK cfg) =
  u8 (Z.land (Z.lxor (Z.lxor (DIRECTION_MASK cfg)
                             (if rev then DIRECTION_MASK cfg else 0))
                     (invert_mask_stepdir settings))
             (DIRECTION_MASK cfg)).
Proof.
  apply Z.bits_inj'. intros i Hi. simpl STEPPING_PORT.
  rewrite Z.land_spec, !u8_testbit, Z.lor_spec, !Z.land_spec, !Z.lxor_spec,
    Z.lnot_spec by lia.
  destruct (Z.testbit (DIRECTION_MASK cfg) i) eqn:Hd;
    [|rewrite !andb_false_r; reflexivity].
  destruct (Z.ltb_spec i 8) as [Hlt|Hge];
    [|rewrite !andb_false_r; reflexivity].
  rewrite initial_out_bits_direction by (auto; lia).
  simpl. rewrite !andb_true_r, andb_false_r. simpl.
  destruct rev; simpl; rewrite ?Hd, ?Z.bits_0; reflexivity.
Qed.

Lemma low_step_bits (p m : Z) : Z.land (u8 (Z.land p (Z.lnot m))) m = 0.
Proof.
  apply Z.bits_inj'. intros i Hi.
  rewrite Z.land_spec, u8_testbit, Z.land_spec, Z.lnot_spec, Z.bits_0 by lia.
  destruct (Z.testbit p i), (Z.testbit m i), (i <? 8); reflexivity.
Qed.

Lemma pass_port_frame (p out sm dm : Z) (pulsed : bool) :
  let p1 := u8 (Z.lor (Z.land p (Z.lnot dm)) (Z.land out dm)) in
  let q := if pulsed then u8 (Z.land p1 (Z.lnot sm)) else p1 in
  Z.land q (Z.lnot (Z.lor sm dm)) = Z.land (u8 p) (Z.lnot (Z.lor sm dm)) /\
  (Z.land sm dm = 0 -> Z.land q dm = Z.land p1 dm) /\
  u8 q = q.
Proof.
  intros p1 q. split; [|split].
  - apply Z.bits_inj'. intros i Hi. subst q p1.
    destruct pulsed;
      rewrite !Z.land_spec, ?u8_testbit, ?Z.land_spec, ?u8_testbit,
        ?Z.lor_spec, ?Z.land_spec, !Z.lnot_spec, ?Z.lor_spec by lia;
      destruct (Z.testbit p i), (Z.testbit out i), (Z.testbit sm i),
        (Z.testbit dm i), (i <? 8); reflexivity.
  - intros Hdis. apply Z.bits_inj'. intros i Hi.
    assert (Hi' : Z.testbit sm i && Z.testbit dm i = false).
    { rewrite <- Z.land_spec, Hdis. apply Z.bits_0. }
    subst q p1.
    destruct pulsed; [|reflexivity].
    rewrite !Z.land_spec, !u8_testbit, Z.land_spec, u8_testbit, Z.lor_spec,
      !Z.land_spec, !Z.lnot_spec by lia.
    destruct (Z.testbit p i), (Z.testbit out i), (Z.testbit sm i),
      (Z.testbit dm i), (i <? 8); try reflexivity; discriminate Hi'.
  - subst q p1. destruct pulsed; apply u8_idem.
Qed.

Lemma homing_cycle_port_value (fuel : nat) (x y z c rev : bool) (us : Z)
    (pin : nat -> Z) (w w' : world) :
  homing_cycle fuel x y z c rev us pin w = Some w' ->
  STEPPING_PORT w' =
  let p1 := STEPPING_PORT
              (set_direction_pins (initial_out_bits x y z c rev) w) in
  if x || y || z || c then u8 (Z.land p1 (Z.lnot (STEP_MASK cfg))) else p1.
Proof.
  intros H.
  destruct (homing_cycle_last_iteration _ _ _ _ _ _ _ _ _ _ H)
    as (n & ls & wn & Hn & Hrun & Hret).
  set (w1 := set_direction_pins (initial_out_bits x y z c rev) w) in *.
  destruct (loop_iteration_returned _ _ _ _ _ _ Hret) as (Hport & _).
  destruct (loop_running_shape _ _ _ _ _ _ _ _ Hrun) as (_ & _ & Hport1).
  cbv zeta. rewrite Hport, Hport1.
  destruct n as [|n].
  - assert (Hstop : forall a,
      fst (track rev pin (reads w1) (requested x y z c a) a 1) = false).
    { apply (loop_returned_all_stopped 1 x y z c rev (step_delay_of us) pin
               w1 w').
      rewrite pulse_loop_last, Hrun. exact Hret. }
    assert (Hnone : forall a, requested x y z c a = false).
    { intros a. specialize (Hstop a). apply track_stopped_iff in Hstop.
      destruct Hstop as [Hreq|(k & Hk & _)]; [exact Hreq|lia]. }
    rewrite (Hnone X_AXIS : x = false), (Hnone Y_AXIS : y = false),
      (Hnone Z_AXIS : z = false), (Hnone C_AXIS : c = false).
    reflexivity.
  - pose proof (running_any_axis _ _ _ _ _ _ _ _ Hrun) as Hany.
    apply any_axis_true in Hany. destruct Hany as [a Ha].
    pose proof (loop_track _ _ _ _ _ _ _ _ _ _ _ a Hrun) as Htr.
    rewrite Ha in Htr.
    destruct (requested x y z c a) eqn:Hreq;
      [|rewrite track_unrequested in Htr; discriminate].
    replace (x || y || z || c) with true; [reflexivity|].
    destruct a; simpl in Hreq; subst; simpl;
      rewrite ?orb_true_r; reflexivity.
Qed.

(** X6. When a pass returns, the stepping port holds the direction bits
    written at its start (STEP_MASK and DIRECTION_MASK being disjoint) and
    the bits outside both masks that it held before the pass; and if any
    axis was requested every bit of STEP_MASK is 0, whatever
    [settings.invert_mask_stepdir] is. *)
Theorem homing_cycle_port_after_pass (fuel : nat) (x y z c rev : bool)
    (us : Z) (pin : nat -> Z) (w w' : world) :
  homing_cycle fuel x y z c rev us pin w = Some w' ->
  Z.land (STEPPING_PORT w')
         (Z.lnot (Z.lor (STEP_MASK cfg) (DIRECTION_MASK cfg))) =
    Z.land (u8 (STEPPING_PORT w))
           (Z.lnot (Z.lor (STEP_MASK cfg) (DIRECTION_MASK cfg))) /\
  (x || y || z || c = true ->
     Z.land (STEPPING_PORT w') (STEP_MASK cfg) = 0) /\
  (Z.land (STEP_MASK cfg) (DIRECTION_MASK cfg) = 0 ->
     Z.land (STEPPING_PORT w') (DIRECTION_MASK cfg) =
     u8 (Z.land (Z.lxor (Z.lxor (DIRECTION_MASK cfg)
                                (if rev then DIRECTION_MASK cfg else 0))
                        (invert_mask_stepdir settings))
                (DIRECTION_MASK cfg))).
Proof.
  intros H. pose proof (homing_cycle_port_value _ _ _ _ _ _ _ _ _ _ H) as Hp.
  cbv zeta in Hp.
  destruct (pass_port_frame (STEPPING_PORT w) (initial_out_bits x y z c rev)
              (STEP_MASK cfg) (DIRECTION_MASK cfg) (x || y || z || c))
    as (Hframe & Hdir & _).
  simpl STEPPING_PORT in Hp. rewrite Hp.
  split; [exact Hframe|]. split.
  - intros ->. apply low_step_bits.
  - intros Hdis. rewrite (Hdir Hdis).
    exact (direction_pins_value x y z c rev w).
Qed.

(** X7. After a homing run that returns, the bits of the stepping port
    outside STEP_MASK and DIRECTION_MASK are those it held before; the
    direction lines are left as the retreat set them, each carrying its
    bit of [settings.invert_mask_stepdir] (the masks being disjoint); and
    if any axis is configured for homing all bits of STEP_MASK are 0. *)
Theorem limits_go_home_port (fuel : nat) (pin : nat -> Z) (w w' : world) :
  limits_go_home fuel pin w = Some w' ->
  Z.land (STEPPING_PORT w')
         (Z.lnot (Z.lor (STEP_MASK cfg) (DIRECTION_MASK cfg))) =
    Z.land (u8 (STEPPING_PORT w))
           (Z.lnot (Z.lor (STEP_MASK cfg) (DIRECTION_MASK cfg))) /\
  (Z.land (STEP_MASK cfg) (DIRECTION_MASK cfg) = 0 ->
     Z.land (STEPPING_PORT w') (DIRECTION_MASK cfg) =
     u8 (Z.land (invert_mask_stepdir settings) (DIRECTION_MASK cfg))) /\
  (HOME_X cfg || HOME_Y cfg || HOME_Z cfg || HOME_C cfg = true ->
     Z.land (STEPPING_PORT w') (STEP_MASK cfg) = 0).
Proof.
  unfold limits_go_home, approach_limit_switch, leave_limit_switch.
  cbv zeta. intros H.
  destruct (double_to_uint32 (FEEDRATE_TO_PERIOD_US (default_seek_rate settings)))
    as [us_seek|]; [|discriminate].
  destruct (homing_cycle fuel false false (HOME_Z cfg) false false us_seek pin
              (st_enable (plan_synchronize w))) as [w1|] eqn:E1; [|discriminate].
  destruct (homing_cycle fuel (HOME_X cfg) (HOME_Y cfg) false (HOME_C cfg) false
              us_seek pin w1) as [w2|] eqn:E2; [|discriminate].
  destruct (double_to_uint32 (FEEDRATE_TO_PERIOD_US (default_feed_rate settings)))
    as [us_feed|]; [|discriminate].
  destruct (homing_cycle fuel (HOME_X cfg) (HOME_Y cfg) (HOME_Z cfg) (HOME_C cfg)
              true us_feed pin w2) as [w3|] eqn:E3; [|discriminate].
  injection H as <-. simpl STEPPING_PORT.
  assert (Hu : forall f a b c' d r u p q,
            homing_cycle f a b c' d r u pin p = Some q ->
            u8 (STEPPING_PORT q) = STEPPING_PORT q).
  { intros f a b c' d r u p q Hq.
    rewrite (homing_cycle_port_value _ _ _ _ _ _ _ _ _ _ Hq). cbv zeta.
    simpl STEPPING_PORT. destruct (a || b || c' || d); apply u8_idem. }
  assert (Hpass : forall f a b c' d r u p q,
            homing_cycle f a b c' d r u pin p = Some q ->
            Z.land (STEPPING_PORT q)
                   (Z.lnot (Z.lor (STEP_MASK cfg) (DIRECTION_MASK cfg))) =
              Z.land (u8 (STEPPING_PORT p))
                     (Z.lnot (Z.lor (STEP_MASK cfg) (DIRECTION_MASK cfg))) /\
            (a || b || c' || d = true ->
               Z.land (STEPPING_PORT q) (STEP_MASK cfg) = 0) /\
            (Z.land (STEP_MASK cfg) (DIRECTION_MASK cfg) = 0 ->
               Z.land (STEPPING_PORT q) (DIRECTION_MASK cfg) =
               Z.land (STEPPING_PORT
                         (set_direction_pins (initial_out_bits a b c' d r) p))
                      (DIRECTION_MASK cfg))).
  { intros f a b c' d r u p q Hq.
    pose proof (homing_cycle_port_value _ _ _ _ _ _ _ _ _ _ Hq) as Hp.
    cbv zeta in Hp.
    destruct (pass_port_frame (STEPPING_PORT p) (initial_out_bits a b c' d r)
                (STEP_MASK cfg) (DIRECTION_MASK cfg) (a || b || c' || d))
      as (Hframe & Hdir & _).
    simpl STEPPING_PORT in Hp |- *. rewrite Hp.
    split; [exact Hframe|]. split; [|exact Hdir].
    intros ->. apply low_step_bits. }
  destruct (Hpass _ _ _ _ _ _ _ _ _ E1) as (F1 & _).
  destruct (Hpass _ _ _ _ _ _ _ _ _ E2) as (F2 & _).
  destruct (Hpass _ _ _ _ _ _ _ _ _ E3) as (F3 & L3 & D3).
  rewrite (Hu _ _ _ _ _ _ _ _ _ E1) in F2.
  rewrite (Hu _ _ _ _ _ _ _ _ _ E2) in F3.
  simpl STEPPING_PORT in F1.
  split; [rewrite F3, F2, F1; reflexivity|]. split.
  - intros Hdis.
    rewrite (D3 Hdis), direction_pins_value, Z.lxor_nilpotent, Z.lxor_0_l.
    reflexivity.
  - exact L3.
Qed.

(** ** A rate of zero *)

(** X8. With a rate of zero (of either sign), or zero steps per mm on X,
    FEEDRATE_TO_PERIOD_US does not evaluate to a finite number, in
    binary32 as in binary64 arithmetic: the product is a zero or a NaN, so
    the quotient and the result are an infinity or a NaN. When the other
    factor is finite and not zero the result is the infinity whose sign is
    the product of the two signs. *)
Theorem zero_rate_period_is_not_finite (f : spec_float) :
  (double_prec cfg = 24 /\ double_emax cfg = 128) \/
  (double_prec cfg = 53 /\ double_emax cfg = 1024) ->
  ((exists s, f = S754_zero s) \/
   (exists s, steps_per_mm settings X_AXIS = S754_zero s) ->
   (exists s, FEEDRATE_TO_PERIOD_US f = S754_infinity s) \/
   FEEDRATE_TO_PERIOD_US f = S754_nan) /\
  (forall s s' m e,
     f = S754_zero s ->
     steps_per_mm settings X_AXIS = S754_finite s' m e ->
     FEEDRATE_TO_PERIOD_US f = S754_infinity (xorb s s')) /\
  (forall s s' m e,
     f = S754_finite s m e ->
     steps_per_mm settings X_AXIS = S754_zero s' ->
     FEEDRATE_TO_PERIOD_US f = S754_infinity (xorb s s')).
Proof.
  intros Hfmt. unfold FEEDRATE_TO_PERIOD_US, fmul, fdiv, fconst.
  destruct Hfmt as [[-> ->]|[-> ->]].
  - split; [|split].
    + intros [[s ->]|[s ->]];
        [destruct (steps_per_mm settings X_AXIS) as [sb|sb| |sb mb eb]
        |destruct f as [sa|sa| |sa ma ea]];
        solve [left; eexists; reflexivity | right; reflexivity].
    + intros s s' m e -> ->. destruct s, s'; reflexivity.
    + intros s s' m e -> ->. destruct s, s'; reflexivity.
  - split; [|split].
    + intros [[s ->]|[s ->]];
        [destruct (steps_per_mm settings X_AXIS) as [sb|sb| |sb mb eb]
        |destruct f as [sa|sa| |sa ma ea]];
        solve [left; eexists; reflexivity | right; reflexivity].
    + intros s s' m e -> ->. destruct s, s'; reflexivity.
    + intros s s' m e -> ->. destruct s, s'; reflexivity.
Qed.

(** ** Step lines of either polarity *)

Lemma step_lines_wired_spec :
  step_lines_wired = true ->
  forall a,
    0 <= STEP_BIT a < 8 /\
    Z.testbit (STEP_MASK cfg) (STEP_BIT a) = true /\
    Z.testbit (DIRECTION_MASK cfg) (STEP_BIT a) = false /\
    forall b, (STEP_BIT b =? STEP_BIT a) = axis_eqb b a.
Proof.
  unfold step_lines_wired. rewrite forallb_forall. intros H a.
  assert (Hin : forall b, In b axes) by (intros []; simpl; tauto).
  pose proof (H a (Hin a)) as Ha. rewrite !andb_true_iff in Ha.
  destruct Ha as ((((H1 & H2) & H3) & H4) & _).
  repeat split.
  - apply Z.leb_le. exact H1.
  - apply Z.ltb_lt. exact H2.
  - exact H3.
  - apply negb_true_iff. exact H4.
  - intros b. pose proof (H b (Hin b)) as Hb. rewrite !andb_true_iff in Hb.
    destruct Hb as (_ & Hb). rewrite forallb_forall in Hb.
    specialize (Hb a (Hin a)). apply orb_true_iff in Hb.
    destruct Hb as [Hb|Hb].
    + rewrite Hb. apply Z.eqb_eq.
      destruct b, a; simpl in Hb; try discriminate; reflexivity.
    + apply negb_true_iff in Hb. rewrite Hb.
      destruct b, a; try reflexivity; rewrite Z.eqb_refl in Hb; discriminate.
Qed.

Lemma initial_out_bits_follow (x y z c rev : bool) :
  step_lines_wired = true ->
  step_bits_follow (initial_locals x y z c rev).
Proof.
  intros Hw a. pose proof (step_lines_wired_spec Hw) as W.
  destruct (W a) as (Ha & _ & Hd & E).
  destruct (W X_AXIS) as (Hx & _). destruct (W Y_AXIS) as (Hy & _).
  destruct (W Z_AXIS) as (Hz & _). destruct (W C_AXIS) as (Hc & _).
  simpl out_bits. unfold initial_out_bits, step_inverted. cbv zeta.
  rewrite (xor_mask_testbit true), xor_mask_testbit by exact Ha.
  rewrite !or_step_bit_testbit by (simpl in *; lia).
  rewrite u8_testbit, Hd by lia.
  rewrite !andb_false_r, !xorb_false_r. simpl.
  change (X_STEP_BIT cfg) with (STEP_BIT X_AXIS).
  change (Y_STEP_BIT cfg) with (STEP_BIT Y_AXIS).
  change (Z_STEP_BIT cfg) with (STEP_BIT Z_AXIS).
  change (C_STEP_BIT cfg) with (STEP_BIT C_AXIS).
  rewrite !E.
  destruct a, x, y, z, c; reflexivity.
Qed.

Lemma debounce_axis_follow (b : axis) (limit_bits : Z) (ls : locals) :
  step_lines_wired = true ->
  step_bits_follow ls -> step_bits_follow (debounce_axis b limit_bits ls).
Proof.
  intros Hw M a. pose proof (step_lines_wired_spec Hw) as W.
  destruct (W a) as (Ha & _ & _ & E).
  pose proof (debounce_axis_view a b limit_bits ls) as V.
  apply (f_equal fst) in V. simpl in V.
  rewrite debounce_axis_out_bits.
  destruct (axis_eqb a b) eqn:Eab.
  - assert (a = b) as -> by (destruct a, b; simpl in Eab; congruence).
    destruct (axis_flag b ls) eqn:Fb; simpl.
    + destruct (axis_flag b (debounce_axis b limit_bits ls)) eqn:Fb'; simpl.
      * rewrite M, Fb. reflexivity.
      * rewrite u8_testbit, Z.lxor_spec, shiftl_1_testbit, M, Fb, Z.eqb_refl by lia.
        replace (STEP_BIT b <? 8) with true by (symmetry; apply Z.ltb_lt; lia).
        destruct (step_inverted b); reflexivity.
    + rewrite M, Fb, V. reflexivity.
  - rewrite V.
    destruct (axis_flag b ls && negb (axis_flag b (debounce_axis b limit_bits ls))).
    + rewrite u8_testbit, Z.lxor_spec, shiftl_1_testbit, M by (destruct (W b); lia).
      rewrite E. replace (axis_eqb b a) with false
        by (destruct a, b; simpl in *; congruence).
      replace (STEP_BIT a <? 8) with true by (symmetry; apply Z.ltb_lt; lia).
      rewrite xorb_false_r. apply andb_true_r.
    + apply M.
Qed.

Lemma loop_follow (n : nat) (x y z c rev : bool) (sd : Z) (pin : nat -> Z)
    (w0 : world) (ls : locals) (w : world) :
  step_lines_wired = true ->
  pulse_loop n rev sd pin (initial_locals x y z c rev) w0 = Running ls w ->
  step_bits_follow ls.
Proof.
  intros Hw. revert ls w. induction n as [|n IH]; intros ls w H.
  - simpl in H. injection H as <- _. apply initial_out_bits_follow. exact Hw.
  - rewrite pulse_loop_last in H.
    destruct (pulse_loop n rev sd pin (initial_locals x y z c rev) w0)
      as [ls1 w1|w1]; [|discriminate].
    rewrite loop_iteration_eq in H. cbv zeta in H.
    destruct (any_axis _); [|discriminate]. injection H as <- _.
    pose proof (IH ls1 w1 eq_refl) as M0. unfold debounce_all.
    auto 8 using debounce_axis_follow.
Qed.

(** X9. Whatever the polarity of the step lines, in an iteration that
    sends a pulse the line of an axis is driven high and toggled back
    exactly when the axis' flag after the debounce processing differs from
    its bit in [settings.invert_mask_stepdir]: a line that is not inverted
    is pulsed while its axis is active; an inverted line is held low while
    its axis is active and is pulsed when the axis is not requested or has
    stopped. *)
Theorem pulse_follows_flag_xor_inversion (x y z c rev : bool) (sd : Z)
    (pin : nat -> Z) (w0 : world) (n : nat) (ls : locals) (w : world) :
  step_lines_wired = true ->
  pulse_loop n rev sd pin (initial_locals x y z c rev) w0 = Running ls w ->
  let ls' := debounce_all (process_limit_bits rev (u8 (pin (reads w)))) ls in
  any_axis ls' = true ->
  forall a high,
    step_pulses (STEP_BIT a) high (iteration_events rev sd pin ls w) =
    if xorb (axis_flag a ls') (step_inverted a) then 1%nat else 0%nat.
Proof.
  intros Hw Hrun ls' Hany a high.
  assert (M : step_bits_follow ls').
  { pose proof (loop_follow _ _ _ _ _ _ _ _ _ _ _ Hw Hrun) as M0.
    unfold ls', debounce_all. auto 8 using debounce_axis_follow. }
  destruct (step_lines_wired_spec Hw a) as (Ha & Hm & _).
  rewrite iteration_events_eq. fold ls'. cbv zeta. rewrite Hany. simpl.
  rewrite !u8_testbit, Z.lor_spec, !Z.land_spec, Z.lnot_spec, Hm, M by lia.
  replace (STEP_BIT a <? 8) with true by (symmetry; apply Z.ltb_lt; lia).
  simpl. rewrite !andb_true_r, andb_false_r. simpl.
  destruct (xorb (axis_flag a ls') (step_inverted a)); reflexivity.
Qed.

(** ** The counter as a run length *)

(** X10. After n iterations of a pass, a requested axis that is still
    active has as its counter the number of "not triggered" readings that
    immediately precede (fewer than ten, and the reading before them, if
    any, was "triggered"), and no ten consecutive ones occurred so far; a
    requested axis that is stopped has had ten consecutive ones. *)
Theorem counter_is_current_run_length (n : nat) (x y z c rev : bool) (sd : Z)
    (pin : nat -> Z) (w0 : world) (ls : locals) (w : world) (a : axis) :
  pulse_loop n rev sd pin (initial_locals x y z c rev) w0 = Running ls w ->
  requested x y z c a = true ->
  (axis_flag a ls = true ->
   exists cn : nat,
     limit_count a ls = Z.of_nat cn /\ (cn < 10)%nat /\ (cn <= n)%nat /\
     (forall i, (n - cn <= i < n)%nat -> quiet rev pin (reads w0) a i = true) /\
     ((cn < n)%nat -> quiet rev pin (reads w0) a (n - cn - 1) = false) /\
     (forall k, (k + 10 <= n)%nat -> ~ quiet_run rev pin (reads w0) a k)) /\
  (axis_flag a ls = false ->
   exists k, (k + 10 <= n)%nat /\ quiet_run rev pin (reads w0) a k).
Proof.
  intros Hrun Hreq.
  pose proof (loop_track _ _ _ _ _ _ _ _ _ _ _ a Hrun) as Htr.
  rewrite Hreq in Htr.
  destruct (track_invariant rev pin (reads w0) a n) as [Ht Hf].
  rewrite <- Htr in Ht, Hf. simpl in Ht, Hf. auto.
Qed.

(** ** The hold between pulses *)

Lemma loop_hold_times (n : nat) (rev : bool) (sd : Z) (pin : nat -> Z)
    (ls0 : locals) (w0 : world) (ls : locals) (w : world) :
  pulse_loop n rev sd pin ls0 w0 = Running ls w ->
  exists evs,
    log w = log w0 ++ evs /\
    hold_times evs = concat (repeat [pulse_microseconds settings; sd] n).
Proof.
  revert ls0 w0. induction n as [|n IH]; intros ls0 w0 H.
  - simpl in H. injection H as _ <-. exists []. rewrite app_nil_r. auto.
  - simpl pulse_loop in H. rewrite loop_iteration_eq in H. cbv zeta in H.
    destruct (any_axis _); [|discriminate].
    destruct (IH _ _ H) as (evs & Hlog & Hholds).
    rewrite send_pulse_log in Hlog. simpl log in Hlog.
    eexists. split; [rewrite Hlog, <- app_assoc; reflexivity|].
    simpl. rewrite Hholds. reflexivity.
Qed.

(** The iteration at which a pass returns does not depend on the hold. *)
Lemma return_index_le (n n' : nat) (x y z c rev : bool) (sd sd' : Z)
    (pin : nat -> Z) (w0 : world) (ls ls' : locals) (wn wn' w' w'' : world) :
  pulse_loop n rev sd pin (initial_locals x y z c rev) w0 = Running ls wn ->
  loop_iteration rev sd pin ls wn = Returned w' ->
  pulse_loop n' rev sd' pin (initial_locals x y z c rev) w0 = Running ls' wn' ->
  loop_iteration rev sd' pin ls' wn' = Returned w'' ->
  (n' <= n)%nat.
Proof.
  intros Hrun Hret Hrun' Hret'.
  destruct (Nat.le_gt_cases n' n) as [|Hlt]; [assumption|exfalso].
  destruct (running_prefix n' (S n) _ _ _ _ _ _ _ Hrun' ltac:(lia))
    as (lsm & wm & Hm).
  pose proof (running_any_axis _ _ _ _ _ _ _ _ Hm) as Hany.
  apply any_axis_true in Hany. destruct Hany as [a Ha].
  pose proof (loop_track _ _ _ _ _ _ _ _ _ _ _ a Hm) as Htr.
  rewrite Ha in Htr.
  assert (Hstop :
    fst (track rev pin (reads w0) (requested x y z c a) a (S n)) = false).
  { apply (loop_returned_all_stopped (S n) x y z c rev sd pin w0 w').
    rewrite pulse_loop_last, Hrun. exact Hret. }
  rewrite <- Htr in Hstop. discriminate.
Qed.

(** C10. With a period and a pulse width that are [uint32_t] values,
    [homing_cycle] holds after every pulse for (period - pulse width)
    modulo 2^32: in a pass that returns the holds are, for each reading
    but the last, the pulse width and then that value. When the pulse
    width exceeds the period the value is the difference plus 2^32, at
    least 2^32 - pulse width. Nothing tests the two values: whatever the
    period, the pass returns for the same fuel, after the same number of
    readings and of accesses, leaving the same port and position. *)
Theorem step_delay_wraps_around (fuel : nat) (x y z c rev : bool) (us : Z)
    (pin : nat -> Z) (w : world) :
  0 <= us < 2 ^ 32 ->
  0 <= pulse_microseconds settings < 2 ^ 32 ->
  let pw := pulse_microseconds settings in
  let hold := (us - pw) mod 2 ^ 32 in
  (pw <= us -> hold = us - pw) /\
  (us < pw -> hold = us - pw + 2 ^ 32 /\ 2 ^ 32 - pw <= hold < 2 ^ 32) /\
  (forall w',
     homing_cycle fuel x y z c rev us pin w = Some w' ->
     (reads w < reads w')%nat /\
     exists evs,
       log w' = log w ++
         EvPortWrite
           (STEPPING_PORT
              (set_direction_pins (initial_out_bits x y z c rev) w))
         :: evs /\
       hold_times evs = concat (repeat [pw; hold] (reads w' - reads w - 1))) /\
  (forall us' w',
     homing_cycle fuel x y z c rev us pin w = Some w' ->
     exists w'',
       homing_cycle fuel x y z c rev us' pin w = Some w'' /\
       reads w'' = reads w' /\
       length (log w'') = length (log w') /\
       STEPPING_PORT w'' = STEPPING_PORT w' /\
       sys_position w'' = sys_position w').
Proof.
  intros Hus Hpw pw hold.
  split; [|split; [|split]].
  - intros Hle. apply Z.mod_small. subst pw. lia.
  - intros Hlt.
    assert (E : hold = us - pw + 2 ^ 32).
    { symmetry. apply (Z.mod_unique _ _ (-1)); subst pw; lia. }
    rewrite E. subst pw. lia.
  - intros w' H.
    destruct (homing_cycle_last_iteration _ _ _ _ _ _ _ _ _ _ H)
      as (n & ls & wn & Hn & Hrun & Hret).
    destruct (loop_iteration_returned _ _ _ _ _ _ Hret)
      as (_ & _ & Hreads & Hlog).
    pose proof (loop_reads _ _ _ _ _ _ _ _ Hrun) as Hreads1.
    destruct (loop_hold_times _ _ _ _ _ _ _ _ Hrun) as (evs & Hevs & Hholds).
    simpl reads in Hreads1.
    split; [lia|]. exists evs. split.
    + rewrite Hlog, Hevs. simpl. rewrite <- app_assoc. reflexivity.
    + replace (reads w' - reads w - 1)%nat with n by lia. exact Hholds.
  - intros us' w' H.
    destruct (homing_cycle_last_iteration _ _ _ _ _ _ _ _ _ _ H)
      as (n & ls & wn & Hn & Hrun & Hret).
    set (w1 := set_direction_pins (initial_out_bits x y z c rev) w) in *.
    assert (Hstop : forall a,
      fst (track rev pin (reads w1) (requested x y z c a) a fuel) = false).
    { apply (loop_returned_all_stopped fuel x y z c rev (step_delay_of us)
               pin w1 w').
      replace fuel with (S n + (fuel - S n))%nat by lia.
      apply pulse_loop_returned_more. rewrite pulse_loop_last, Hrun.
      exact Hret. }
    destruct fuel as [|fuel]; [lia|].
    destruct (loop_returns_when_all_stopped fuel x y z c rev
                (step_delay_of us') pin w1 Hstop) as [w'' Hw''].
    assert (H' : homing_cycle (S fuel) x y z c rev us' pin w = Some w'').
    { unfold homing_cycle. cbv zeta. simpl out_bits. fold w1.
      rewrite Hw''. reflexivity. }
    exists w''. split; [exact H'|].
    destruct (homing_cycle_last_iteration _ _ _ _ _ _ _ _ _ _ H')
      as (n' & ls' & wn' & Hn' & Hrun' & Hret').
    fold w1 in Hrun'.
    assert (n' = n) as ->.
    { apply Nat.le_antisymm.
      - exact (return_index_le _ _ _ _ _ _ _ _ _ _ _ _ _ _ _ _ _
                 Hrun Hret Hrun' Hret').
      - exact (return_index_le _ _ _ _ _ _ _ _ _ _ _ _ _ _ _ _ _
                 Hrun' Hret' Hrun Hret). }
    destruct (loop_iteration_returned _ _ _ _ _ _ Hret)
      as (Hp & Hs & Hr & Hl).
    destruct (loop_iteration_returned _ _ _ _ _ _ Hret')
      as (Hp' & Hs' & Hr' & Hl').
    destruct (loop_running_shape _ _ _ _ _ _ _ _ Hrun) as (Sl & Ss & Sp).
    destruct (loop_running_shape _ _ _ _ _ _ _ _ Hrun') as (Sl' & Ss' & Sp').
    rewrite Hp, Hs, Hr, Hl, Hp', Hs', Hr', Hl', Sl, Ss, Sp, Sl', Ss', Sp'.
    rewrite (loop_reads _ _ _ _ _ _ _ _ Hrun), (loop_reads _ _ _ _ _ _ _ _ Hrun').
    auto.
Qed.

End Limits.

(** ** The pulse period *)

Lemma double_to_uint32_truncates (f : spec_float) (us : Z) (q : Q) :
  double_to_uint32 f = Some us ->
  SF2Q f = Some q ->
  us = Z.quot (Qnum q) (Z.pos (Qden q)).
Proof.
  destruct f as [s| | |s m e]; unfold double_to_uint32, SF2Q;
    try discriminate.
  - intros [= <-] [= <-]. reflexivity.
  - set (v := Z.pos m * 2 ^ e). set (d := 2 ^ (- e)).
    destruct (Z.leb_spec 0 e) as [He|He].
    + assert (Hpos : 0 < v) by (apply Z.mul_pos_pos; lia).
      destruct s.
      * destruct (Z.eqb_spec v 0); [exfalso; lia|discriminate].
      * destruct (v <? 2 ^ 32); [|discriminate].
        intros [= <-] [= <-]. change (v = Z.quot v 1).
        symmetry. apply Z.quot_1_r.
    + assert (Hd : 0 < d) by (apply Z.pow_pos_nonneg; lia).
      assert (Hden : Z.pos (Z.to_pos d) = d) by (apply Z2Pos.id; exact Hd).
      destruct s.
      * destruct (Z.eqb_spec (Z.pos m / d) 0) as [Hz|]; [|discriminate].
        intros [= <-] [= <-].
        change (0 = Z.quot (- Z.pos m) (Z.pos (Z.to_pos d))).
        rewrite Hden, Z.quot_opp_l by lia.
        rewrite Z.quot_div_nonneg by lia. lia.
      * destruct (Z.pos m / d <? 2 ^ 32); [|discriminate].
        intros [= <-] [= <-].
        change (Z.pos m / d = Z.quot (Z.pos m) (Z.pos (Z.to_pos d))).
        rewrite Hden. symmetry. apply Z.quot_div_nonneg; lia.
Qed.

Lemma in_whole (n : nat) (v : Z) : 1 <= v <= Z.of_nat n -> In v (whole n).
Proof.
  intros Hv. unfold whole. apply in_map_iff. exists (Z.to_nat v).
  split; [lia|]. apply in_seq. lia.
Qed.

Lemma period_check_spec (slack prec emax : Z) (R S : nat) (r s : Z) :
  period_check slack prec emax R S = true ->
  1 <= r <= Z.of_nat R -> 1 <= s <= Z.of_nat S ->
  exists us,
    period_at prec emax r s = Some us /\
    60000000 / (r * s) <= us <= 60000000 / (r * s) + slack.
Proof.
  unfold period_check. rewrite forallb_forall. intros H Hr Hs.
  specialize (H r (in_whole R r Hr)). rewrite forallb_forall in H.
  specialize (H s (in_whole S s Hs)). unfold near_quotient in H.
  destruct (period_at prec emax r s) as [us|]; [|discriminate].
  apply andb_true_iff in H. destruct H as [Hlo Hhi].
  apply Z.leb_le in Hlo. apply Z.leb_le in Hhi. eauto.
Qed.

Lemma period_check_binary32 : period_check 1 24 128 200 100 = true.
Proof. vm_compute. reflexivity. Qed.

Lemma period_check_binary64 : period_check 0 53 1024 200 100 = true.
Proof. vm_compute. reflexivity. Qed.

(** C9 (as the code has it). The period handed to [homing_cycle] is the
    value of (60.0 / (rate * steps_per_mm[X])) * 1000000.0, computed in
    [double] arithmetic (a product, a quotient and a product, each rounded)
    and converted to [uint32_t], which drops its fraction; the rate is the
    seek rate on an approach pass and the feed rate on a retreat pass.
    With rate 100 and 80 steps per mm the value is exactly 7500 and so is
    the period, in binary32 as in binary64 arithmetic, and a pulse width
    of 10 us leaves a hold of 7490 us. For whole rates up to 200 and whole
    steps per mm up to 100 the period is the whole part of
    60000000 / (rate * steps) in binary64, and that or one more in
    binary32 (rate 3 with 7 steps per mm gives 2857143, the quotient
    being 2857142.86). *)
Theorem pulse_period_is_truncated_formula (cfg : config_t)
    (settings : settings_t) :
  let prec := double_prec cfg in
  let emax := double_emax cfg in
  let num n := binary_normalize prec emax n 0 false in
  let formula rate :=
    SFmul prec emax
      (SFdiv prec emax (num 60)
         (SFmul prec emax rate (steps_per_mm settings X_AXIS)))
      (num 1000000) in
  (forall fuel x y z c pin w,
     approach_limit_switch cfg settings fuel x y z c pin w =
     match double_to_uint32 (formula (default_seek_rate settings)) with
     | Some us => homing_cycle cfg settings fuel x y z c false us pin w
     | None => None
     end) /\
  (forall fuel x y z c pin w,
     leave_limit_switch cfg settings fuel x y z c pin w =
     match double_to_uint32 (formula (default_feed_rate settings)) with
     | Some us => homing_cycle cfg settings fuel x y z c true us pin w
     | None => None
     end) /\
  (forall f us q,
     double_to_uint32 f = Some us -> SF2Q f = Some q ->
     us = Z.quot (Qnum q) (Z.pos (Qden q))) /\
  ((double_prec cfg = 24 /\ double_emax cfg = 128) \/
   (double_prec cfg = 53 /\ double_emax cfg = 1024) ->
   steps_per_mm settings X_AXIS = fconst cfg 80 ->
   (exists q,
      SF2Q (FEEDRATE_TO_PERIOD_US cfg settings (fconst cfg 100)) = Some q /\
      Qeq q (inject_Z 7500)) /\
   double_to_uint32 (FEEDRATE_TO_PERIOD_US cfg settings (fconst cfg 100))
     = Some 7500 /\
   (pulse_microseconds settings = 10 -> step_delay_of settings 7500 = 7490)) /\
  (forall f, FEEDRATE_TO_PERIOD_US cfg settings f = formula f) /\
  (double_prec cfg = 24 /\ double_emax cfg = 128 ->
   forall r s, 1 <= r <= 200 -> 1 <= s <= 100 ->
   steps_per_mm settings X_AXIS = num s ->
   exists us,
     double_to_uint32 (formula (num r)) = Some us /\
     60000000 / (r * s) <= us <= 60000000 / (r * s) + 1) /\
  (double_prec cfg = 53 /\ double_emax cfg = 1024 ->
   forall r s, 1 <= r <= 200 -> 1 <= s <= 100 ->
   steps_per_mm settings X_AXIS = num s ->
   double_to_uint32 (formula (num r)) = Some (60000000 / (r * s))) /\
  (double_prec cfg = 24 /\ double_emax cfg = 128 ->
   steps_per_mm settings X_AXIS = num 7 ->
   double_to_uint32 (formula (num 3)) = Some 2857143 /\
   60000000 / (3 * 7) = 2857142).
Proof.
  intros prec emax num formula.
  split; [reflexivity|]. split; [reflexivity|].
  split; [exact double_to_uint32_truncates|]. split.
  { clear formula num prec emax. intros Hfmt Hsteps.
    unfold FEEDRATE_TO_PERIOD_US, fmul, fdiv, step_delay_of.
    rewrite Hsteps. unfold fconst.
    destruct Hfmt as [[-> ->]|[-> ->]].
    - split; [|split].
      + eexists. split; [vm_compute; reflexivity|]. vm_compute. reflexivity.
      + vm_compute. reflexivity.
      + intros ->. reflexivity.
    - split; [|split].
      + eexists. split; [vm_compute; reflexivity|]. vm_compute. reflexivity.
      + vm_compute. reflexivity.
      + intros ->. reflexivity. }
  split; [reflexivity|]. split; [|split].
  - intros [Hp He] r s Hr Hs Hsteps. subst formula num prec emax.
    cbv beta. rewrite Hsteps, Hp, He.
    exact (period_check_spec 1 24 128 200 100 r s period_check_binary32
             Hr Hs).
  - intros [Hp He] r s Hr Hs Hsteps. subst formula num prec emax.
    cbv beta. rewrite Hsteps, Hp, He.
    destruct (period_check_spec 0 53 1024 200 100 r s period_check_binary64
                Hr Hs) as (us & Hus & Hb).
    unfold period_at in Hus. cbv zeta beta in Hus. rewrite Hus.
    f_equal. lia.
  - intros [Hp He] Hsteps. subst formula num prec emax.
    cbv beta. rewrite Hsteps, Hp, He.
    split; vm_compute; reflexivity.
Qed.

(** ** An inverted step line *)

(** C4 (defect). With the X step line inverted in
    [settings.invert_mask_stepdir]: in a pass over Y alone the X line is
    driven high and toggled back in each of the nine pulsing iterations;
    and in a pass over X and Y, the iteration that stops X turns the X step
    bit of the output word on instead of off, after which the X line is
    pulsed in every iteration until Y stops, while it got no pulse as long
    as X was active. *)
Theorem inverted_step_line_defeats_axis_gating :
  requested false true false false X_AXIS = false /\
  option_map (fun w => step_pulses (STEP_BIT demo_cfg X_AXIS) true (log w))
    (homing_cycle demo_cfg inverted_x_settings 10 false true false false
       false 7500 all_clear x_high_world) = Some 9%nat /\
  (exists ls w,
     pulse_loop demo_cfg inverted_x_settings 9 false 7490 y_set_five_times
       (initial_locals demo_cfg inverted_x_settings true true false false false)
       x_high_world = Running ls w /\
     let ls' :=
       debounce_all demo_cfg
         (process_limit_bits demo_cfg inverted_x_settings false
            (u8 (y_set_five_times (reads w)))) ls in
     axis_flag X_AXIS ls = true /\
     Z.testbit (out_bits ls) (STEP_BIT demo_cfg X_AXIS) = false /\
     step_pulses (STEP_BIT demo_cfg X_AXIS) true (log w) = 0%nat /\
     axis_flag X_AXIS ls' = false /\
     Z.testbit (out_bits ls') (STEP_BIT demo_cfg X_AXIS) = true /\
     step_pulses (STEP_BIT demo_cfg X_AXIS) false
       (iteration_events demo_cfg inverted_x_settings false 7490
          y_set_five_times ls w) = 1%nat) /\
  option_map (fun w => step_pulses (STEP_BIT demo_cfg X_AXIS) true (log w))
    (homing_cycle demo_cfg inverted_x_settings 15 true true false false
       false 7500 y_set_five_times x_high_world) = Some 5%nat.
Proof.
  split; [reflexivity|]. split; [vm_compute; reflexivity|]. split.
  - do 2 eexists. split; [vm_compute; reflexivity|].
    vm_compute. repeat split.
  - vm_compute. reflexivity.
Qed.

(** ** The statements on the concrete machine *)

(** A full homing run of the demo machine returns, and C, which is not
    homed, has its coordinate changed from 44 to 0. *)
Lemma unhomed_axis_coordinate_overwritten :
  HOME_C demo_cfg = false /\
  sys_position demo_world C_AXIS = 44 /\
  option_map (fun w => sys_position w C_AXIS)
    (limits_go_home demo_cfg demo_settings 10 home_run_pins demo_world)
  = Some 0.
Proof.
  split; [reflexivity|]. split; [reflexivity|]. vm_compute. reflexivity.
Qed.

Lemma limits_go_home_zeroes_every_axis_witness :
  exists w',
    limits_go_home demo_cfg demo_settings 10 home_run_pins demo_world = Some w' /\
    sys_position w' X_AXIS = 0 /\ sys_position w' C_AXIS = 0.
Proof.
  destruct (limits_go_home demo_cfg demo_settings 10 home_run_pins demo_world)
    as [w'|] eqn:E.
  - exists w'. split; [reflexivity|].
    split; apply (limits_go_home_zeroes_every_axis _ _ _ _ _ _ E).
  - vm_compute in E. discriminate E.
Defined.

Lemma debounce_counter_contract_witness :
  limit_count X_AXIS
    (debounce_all demo_cfg
       (process_limit_bits demo_cfg demo_settings false
          (u8 (x_set_at_tenth (reads demo_world))))
       (initial_locals demo_cfg demo_settings true false false false false))
  = 1 /\
  exists ls w,
    pulse_loop demo_cfg demo_settings 10 false 7490 x_set_at_tenth
      (initial_locals demo_cfg demo_settings true false false false false)
      demo_world = Running ls w /\
    limit_count X_AXIS ls = 0 /\ axis_flag X_AXIS ls = true.
Proof.
  destruct (debounce_counter_contract demo_cfg demo_settings
              true false false false false 7490 x_set_at_tenth demo_world
              X_AXIS eq_refl) as (_ & Hiter & Hscenario).
  split.
  - destruct (Hiter O _ _ eq_refl eq_refl) as (_ & _ & Hinc & _).
    exact (Hinc eq_refl).
  - apply Hscenario.
    + intros i Hi. do 9 (destruct i as [|i]; [reflexivity|]). lia.
    + reflexivity.
Defined.

(** X and Y are requested and Y reads "triggered" once: in the tenth
    iteration X enters active and stops, Y stays active, and the only
    pulse of the iteration is Y's. *)
Lemma axis_stopping_midpass_gets_no_pulse :
  exists ls w,
    pulse_loop demo_cfg demo_settings 9 false 7490 y_set_at_first
      (initial_locals demo_cfg demo_settings true true false false false)
      demo_world = Running ls w /\
    let ls' :=
      debounce_all demo_cfg
        (process_limit_bits demo_cfg demo_settings false
           (u8 (y_set_at_first (reads w)))) ls in
    let evs :=
      iteration_events demo_cfg demo_settings false 7490 y_set_at_first ls w in
    axis_flag X_AXIS ls = true /\
    axis_flag Y_AXIS ls = true /\ axis_flag Y_AXIS ls' = true /\
    evs = [EvPortWrite 2; EvDelay 10; EvPinWrite 2; EvDelay 7490] /\
    step_pulses (STEP_BIT demo_cfg X_AXIS) false evs = 0%nat /\
    ~ (forall a, axis_flag a ls = true ->
                 step_pulses (STEP_BIT demo_cfg a) false evs = 1%nat).
Proof.
  do 2 eexists. split; [vm_compute; reflexivity|].
  cbv zeta. repeat split; try (vm_compute; reflexivity).
  intros H. specialize (H X_AXIS eq_refl). vm_compute in H. discriminate H.
Qed.

Lemma pulse_for_each_remaining_axis_witness :
  step_pulses (STEP_BIT demo_cfg X_AXIS) false
    (iteration_events demo_cfg demo_settings false 7490 all_clear
       (initial_locals demo_cfg demo_settings true false false false false)
       demo_world) = 1%nat /\
  step_pulses (STEP_BIT demo_cfg Y_AXIS) false
    (iteration_events demo_cfg demo_settings false 7490 all_clear
       (initial_locals demo_cfg demo_settings true false false false false)
       demo_world) = 0%nat.
Proof.
  destruct (pulse_for_each_remaining_axis demo_cfg demo_settings
              true false false false false 7490 all_clear demo_world O _ _
              eq_refl eq_refl) as [Hpulse _].
  destruct (Hpulse eq_refl) as (_ & _ & Hcount).
  split; [exact (Hcount X_AXIS false)|exact (Hcount Y_AXIS false)].
Defined.

Lemma limit_byte_reversed_then_inverted_witness :
  limit_bit_set demo_cfg X_AXIS
    (process_limit_bits demo_cfg demo_settings true 1) = false /\
  limit_bit_set demo_cfg X_AXIS
    (process_limit_bits demo_cfg demo_settings false 1) = true.
Proof.
  assert (Hbit : 0 <= LIMIT_BIT demo_cfg X_AXIS < 8) by (simpl; lia).
  split.
  - destruct (limit_byte_reversed_then_inverted demo_cfg demo_settings
                true 1 X_AXIS Hbit) as (_ & _ & H & _).
    exact H.
  - destruct (limit_byte_reversed_then_inverted demo_cfg demo_settings
                false 1 X_AXIS Hbit) as (_ & _ & H & _).
    exact H.
Defined.


Lemma homing_cycle_returns_iff_quiet_runs_witness :
  (exists fuel w',
     homing_cycle demo_cfg demo_settings fuel true false false false false
       7500 all_clear demo_world = Some w') /\
  (forall fuel,
     homing_cycle demo_cfg demo_settings fuel true false false false false
       7500 x_stuck demo_world = None).
Proof.
  split.
  - apply (proj1 (homing_cycle_returns_iff_quiet_runs demo_cfg demo_settings
                    true false false false false 7500 all_clear demo_world)).
    intros a Hreq. exists O. intros i Hi.
    destruct a; try discriminate Hreq. reflexivity.
  - apply (proj2 (homing_cycle_returns_iff_quiet_runs demo_cfg demo_settings
                    true false false false false 7500 x_stuck demo_world)).
    exists X_AXIS. split; [reflexivity|].
    intros k Hrun. specialize (Hrun k ltac:(lia)).
    cbv in Hrun. discriminate Hrun.
Defined.

(** With seek rate 7 the formula has the value 107142.859375 in binary32
    (750000/7 exactly); the period handed to [homing_cycle] is 107142. *)
Lemma period_differs_from_formula_value :
  double_to_uint32
    (FEEDRATE_TO_PERIOD_US demo_cfg slow_settings
       (default_seek_rate slow_settings)) = Some 107142 /\
  approach_limit_switch demo_cfg slow_settings 1 true false false false
    all_clear demo_world
  = homing_cycle demo_cfg slow_settings 1 true false false false false 107142
      all_clear demo_world /\
  SF2Q (FEEDRATE_TO_PERIOD_US demo_cfg slow_settings
          (default_seek_rate slow_settings)) = Some (Qmake 13714286 128) /\
  ~ Qeq (inject_Z 107142) (Qmake 13714286 128) /\
  ~ Qeq (inject_Z 107142) (60 / (7 * 80) * 1000000)%Q.
Proof.
  split; [vm_compute; reflexivity|]. split; [reflexivity|].
  split; [vm_compute; reflexivity|].
  split; intros H; vm_compute in H; discriminate H.
Qed.

Lemma pulse_period_is_truncated_formula_witness :
  double_to_uint32
    (FEEDRATE_TO_PERIOD_US demo_cfg demo_settings (fconst demo_cfg 100))
    = Some 7500 /\
  step_delay_of demo_settings 7500 = 7490 /\
  double_to_uint32
    (FEEDRATE_TO_PERIOD_US demo_cfg64 demo_settings64 (fconst demo_cfg64 100))
    = Some 7500 /\
  (exists us,
     double_to_uint32
       (FEEDRATE_TO_PERIOD_US demo_cfg demo_settings (binary32 150))
       = Some us /\
     60000000 / (150 * 80) <= us <= 60000000 / (150 * 80) + 1) /\
  double_to_uint32
    (FEEDRATE_TO_PERIOD_US demo_cfg64 demo_settings64 (binary64 150))
    = Some (60000000 / (150 * 80)).
Proof.
  destruct (pulse_period_is_truncated_formula demo_cfg demo_settings)
    as (_ & _ & _ & H32 & _ & Hnear & _).
  destruct (H32 (or_introl (conj eq_refl eq_refl)) eq_refl) as (_ & Hus & Hsd).
  destruct (pulse_period_is_truncated_formula demo_cfg64 demo_settings64)
    as (_ & _ & _ & H64 & _ & _ & Hexact & _).
  destruct (H64 (or_intror (conj eq_refl eq_refl)) eq_refl) as (_ & Hus64 & _).
  split; [exact Hus|]. split; [exact (Hsd eq_refl)|]. split; [exact Hus64|].
  split.
  - exact (Hnear (conj eq_refl eq_refl) 150 80 ltac:(lia) ltac:(lia) eq_refl).
  - exact (Hexact (conj eq_refl eq_refl) 150 80 ltac:(lia) ltac:(lia) eq_refl).
Defined.

Lemma step_delay_wraps_around_witness :
  exists w' evs,
    homing_cycle demo_cfg demo_settings 12 true false false false false 5
      all_clear demo_world = Some w' /\
    log w' = log demo_world ++ EvPortWrite 240 :: evs /\
    hold_times evs = concat (repeat [10; 4294967291] 9) /\
    exists w'',
      homing_cycle demo_cfg demo_settings 12 true false false false false 7500
        all_clear demo_world = Some w'' /\
      reads w'' = reads w'.
Proof.
  destruct (homing_cycle demo_cfg demo_settings 12 true false false false false
              5 all_clear demo_world) as [w'|] eqn:E;
    [|vm_compute in E; discriminate E].
  destruct (step_delay_wraps_around demo_cfg demo_settings 12
              true false false false false 5 all_clear demo_world
              ltac:(lia) ltac:(simpl; lia)) as (_ & _ & Hholds & Hany).
  destruct (Hholds w' E) as (_ & evs & Hlog & Hh).
  destruct (Hany 7500 w' E) as (w'' & E'' & Hreads & _).
  assert (Hten : reads w' = 10%nat).
  { pose proof E as E2. vm_compute in E2. injection E2 as <-. reflexivity. }
  rewrite Hten in Hh.
  exists w', evs. split; [reflexivity|]. split; [exact Hlog|].
  split; [exact Hh|]. exists w''. auto.
Defined.

(** ** Further statements on the concrete machine *)

Lemma limits_init_configures_limit_pins_witness :
  Z.testbit (LIMIT_DDR (limits_init demo_cfg true demo_limit_port)) 0 = false /\
  Z.testbit (LIMIT_DDR (limits_init demo_cfg true demo_limit_port)) 4 = true /\
  Z.testbit (LIMIT_PORT (limits_init demo_cfg true demo_limit_port)) 0 = true.
Proof.
  destruct (limits_init_configures_limit_pins demo_cfg true demo_limit_port 0
              ltac:(lia)) as (Hd0 & Hp0 & _).
  destruct (limits_init_configures_limit_pins demo_cfg true demo_limit_port 4
              ltac:(lia)) as (Hd4 & _).
  split; [exact Hd0|]. split; [exact Hd4|exact Hp0].
Defined.

Lemma homing_cycle_shape_witness :
  exists w' N,
    homing_cycle demo_cfg demo_settings 12 true false false false false 7500
      all_clear demo_world = Some w' /\
    reads w' = (reads demo_world + N)%nat /\ (10 <= N)%nat.
Proof.
  destruct (homing_cycle demo_cfg demo_settings 12 true false false false false
              7500 all_clear demo_world) as [w'|] eqn:E.
  - destruct (homing_cycle_shape _ _ _ _ _ _ _ _ _ _ _ _ E)
      as (N & evs & _ & Hreads & _ & _ & _ & _ & Hten).
    exists w', N. split; [reflexivity|]. split; [exact Hreads|].
    apply Hten. exists X_AXIS. reflexivity.
  - vm_compute in E. discriminate E.
Defined.

Lemma homing_cycle_returns_at_first_completion_witness :
  exists w' k,
    homing_cycle demo_cfg demo_settings 20 true false false false false 7500
      x_set_at_tenth demo_world = Some w' /\
    (k + 10 <= reads w' - reads demo_world)%nat /\
    quiet_run demo_cfg demo_settings false x_set_at_tenth (reads demo_world)
      X_AXIS k.
Proof.
  destruct (homing_cycle demo_cfg demo_settings 20 true false false false false
              7500 x_set_at_tenth demo_world) as [w'|] eqn:E.
  - destruct (homing_cycle_returns_at_first_completion _ _ _ _ _ _ _ _ _ _ _ _ E)
      as [Hall _].
    destruct (Hall X_AXIS eq_refl) as (k & Hk & Hq).
    exists w', k. auto.
  - vm_compute in E. discriminate E.
Defined.

Lemma axis_debounce_independent_witness :
  match
    pulse_loop demo_cfg demo_settings 7 false 7490 y_set_five_times
      (initial_locals demo_cfg demo_settings true false false false false)
      demo_world,
    pulse_loop demo_cfg demo_settings 7 false 100 y_set_five_times
      (initial_locals demo_cfg demo_settings true true false false false)
      x_high_world
  with
  | Running ls _, Running ls' _ =>
      axis_flag X_AXIS ls = axis_flag X_AXIS ls' /\
      limit_count X_AXIS ls = limit_count X_AXIS ls'
  | _, _ => False
  end.
Proof.
  destruct (pulse_loop demo_cfg demo_settings 7 false 7490 y_set_five_times
              (initial_locals demo_cfg demo_settings true false false false false)
              demo_world) as [ls w|w] eqn:E;
    [|vm_compute in E; discriminate E].
  destruct (pulse_loop demo_cfg demo_settings 7 false 100 y_set_five_times
              (initial_locals demo_cfg demo_settings true true false false false)
              x_high_world) as [ls' w'|w'] eqn:E';
    [|vm_compute in E'; discriminate E'].
  exact (axis_debounce_independent demo_cfg demo_settings 7 false
           y_set_five_times X_AXIS true false false false true true false false
           7490 100 demo_world x_high_world ls ls' w w' eq_refl eq_refl E E').
Defined.

Lemma axis_pulse_count_witness :
  exists w' evs,
    homing_cycle demo_cfg demo_settings 16 true true false false false 7500
      y_set_five_times demo_world = Some w' /\
    log w' = log demo_world ++ EvPortWrite 240 :: evs /\
    step_pulses (STEP_BIT demo_cfg X_AXIS) false evs = 9%nat /\
    step_pulses (STEP_BIT demo_cfg Z_AXIS) false evs = 0%nat.
Proof.
  destruct (homing_cycle demo_cfg demo_settings 16 true true false false false
              7500 y_set_five_times demo_world) as [w'|] eqn:E;
    [|vm_compute in E; discriminate E].
  destruct (axis_pulse_count demo_cfg demo_settings _ _ _ _ _ _ _ _ _ _ X_AXIS
              eq_refl E) as (evs & Hlog & _ & Hx).
  destruct (axis_pulse_count demo_cfg demo_settings _ _ _ _ _ _ _ _ _ _ Z_AXIS
              eq_refl E) as (evs' & Hlog' & Hz & _).
  assert (evs' = evs) as ->.
  { rewrite Hlog in Hlog'. apply app_inv_head in Hlog'.
    injection Hlog' as <-. reflexivity. }
  exists w', evs. split; [reflexivity|]. split; [exact Hlog|]. split.
  - apply (Hx eq_refl O).
    split; [|intros j Hj; lia].
    intros i Hi. unfold quiet, sample, y_set_five_times.
    change (reads demo_world + i)%nat with i.
    destruct (i <? 5)%nat; reflexivity.
  - apply (Hz eq_refl).
Defined.

Lemma homing_cycle_port_after_pass_witness :
  exists w',
    homing_cycle demo_cfg inverted_x_settings 12 true false false false false
      7500 all_clear x_high_world = Some w' /\
    Z.land (STEPPING_PORT w') (STEP_MASK demo_cfg) = 0 /\
    Z.land (STEPPING_PORT w') (DIRECTION_MASK demo_cfg) = 240.
Proof.
  destruct (homing_cycle demo_cfg inverted_x_settings 12 true false false false
              false 7500 all_clear x_high_world) as [w'|] eqn:E;
    [|vm_compute in E; discriminate E].
  destruct (homing_cycle_port_after_pass _ _ _ _ _ _ _ _ _ _ _ _ E)
    as (_ & Hlow & Hdir).
  exists w'. split; [reflexivity|]. split.
  - apply Hlow. reflexivity.
  - apply Hdir. reflexivity.
Defined.

Lemma limits_go_home_port_witness :
  exists w',
    limits_go_home demo_cfg demo_settings 10 home_run_pins demo_world = Some w' /\
    Z.land (STEPPING_PORT w') (DIRECTION_MASK demo_cfg) = 0 /\
    Z.land (STEPPING_PORT w') (STEP_MASK demo_cfg) = 0.
Proof.
  destruct (limits_go_home demo_cfg demo_settings 10 home_run_pins demo_world)
    as [w'|] eqn:E; [|vm_compute in E; discriminate E].
  destruct (limits_go_home_port _ _ _ _ _ _ E) as (_ & Hdir & Hlow).
  exists w'. split; [reflexivity|]. split.
  - apply Hdir. reflexivity.
  - apply Hlow. reflexivity.
Defined.

Lemma zero_rate_period_is_not_finite_witness :
  FEEDRATE_TO_PERIOD_US demo_cfg zero_seek_settings
    (default_seek_rate zero_seek_settings) = S754_infinity false.
Proof.
  destruct (zero_rate_period_is_not_finite demo_cfg zero_seek_settings
              (default_seek_rate zero_seek_settings)
              (or_introl (conj eq_refl eq_refl))) as (_ & Hsign & _).
  exact (Hsign false false _ _ eq_refl eq_refl).
Defined.

Lemma pulse_follows_flag_xor_inversion_witness :
  step_pulses (STEP_BIT demo_cfg X_AXIS) true
    (iteration_events demo_cfg inverted_x_settings false 7490 all_clear
       (initial_locals demo_cfg inverted_x_settings false true false false false)
       x_high_world) = 1%nat /\
  step_pulses (STEP_BIT demo_cfg X_AXIS) true
    (iteration_events demo_cfg inverted_x_settings false 7490 all_clear
       (initial_locals demo_cfg inverted_x_settings true true false false false)
       x_high_world) = 0%nat.
Proof.
  split.
  - exact (pulse_follows_flag_xor_inversion demo_cfg inverted_x_settings
             false true false false false 7490 all_clear x_high_world O _ _
             eq_refl eq_refl eq_refl X_AXIS true).
  - exact (pulse_follows_flag_xor_inversion demo_cfg inverted_x_settings
             true true false false false 7490 all_clear x_high_world O _ _
             eq_refl eq_refl eq_refl X_AXIS true).
Defined.

Lemma counter_is_current_run_length_witness :
  match
    pulse_loop demo_cfg demo_settings 7 false 7490 y_set_five_times
      (initial_locals demo_cfg demo_settings true true false false false)
      demo_world
  with
  | Running ls _ =>
      exists cn : nat,
        limit_count Y_AXIS ls = Z.of_nat cn /\ (cn < 10)%nat /\ (cn <= 7)%nat
  | Returned _ => False
  end.
Proof.
  destruct (pulse_loop demo_cfg demo_settings 7 false 7490 y_set_five_times
              (initial_locals demo_cfg demo_settings true true false false false)
              demo_world) as [ls w|w] eqn:E;
    [|vm_compute in E; discriminate E].
  destruct (counter_is_current_run_length demo_cfg demo_settings _ _ _ _ _ _ _
              _ _ _ _ Y_AXIS E eq_refl) as [Hactive _].
  assert (Hflag : axis_flag Y_AXIS ls = true).
  { vm_compute in E. injection E as <- _. reflexivity. }
  destruct (Hactive Hflag) as (cn & Hc & Hlt & Hle & _).
  exists cn. auto.
Defined.
